(** * The LLM request orchestrator of [src/app/api/llm/route.ts]

    A shallow embedding of the route handler: the model registry
    ([MODEL_CONFIGS]), the health tracker ([modelHealth],
    [updateModelHealth], [getHealthyModels]), the transport
    ([callOpenRouter]) and the orchestration loop of [POST].

    Conventions of the embedding:
    - a value obtained from [JSON.parse] / [req.json()] is a [json];
      [undefined] is [None] of [option json];
    - JavaScript numbers that only get compared ([max_tokens]) are
      rationals extended with the two infinities ([JSON.parse] never
      yields NaN); counters and [Date.now()] readings are integers;
    - the upstream endpoint and the clock are the environment: a function
      from the index of the call and the model called to what [fetch]
      did, and the timestamps read along the way;
    - the process-wide [modelHealth] map and the sequence of upstream
      calls and back-off sleeps are threaded through as a [World].

    Beside the route, the file embeds what the rest of the sources
    computes on its own: [safeJsonExtract] of the prompt-generation
    route, [toggleFavorite], [qualityToTag] and the pose selector of the
    studio client, the toast list of [useToast], and what
    [handleOptimize] of the studio page reads from an answer of the
    route. *)

From Stdlib Require Import ZArith QArith String Ascii List Sorted Bool Lia Lqa.
From Stdlib Require DecimalString DecimalNat DecimalZ.
From stdpp Require Import base gmap strings list.

Local Open Scope string_scope.
Local Open Scope list_scope.
Local Open Scope Z_scope.

(** ** JavaScript values *)

Inductive JsNum :=
  | Fin (q : Q)
  | PosInf
  | NegInf.

(** [a < b] on numbers. *)
Definition js_lt (a b : JsNum) : bool :=
  match a, b with
  | Fin x, Fin y => negb (Qle_bool y x)
  | Fin _, PosInf => true
  | NegInf, Fin _ => true
  | NegInf, PosInf => true
  | _, _ => false
  end.

Definition Math_max (a b : JsNum) : JsNum := if js_lt a b then b else a.
Definition Math_min (a b : JsNum) : JsNum := if js_lt b a then b else a.

Definition num (z : Z) : JsNum := Fin (inject_Z z).

#[local] Unset Elimination Schemes.
Inductive json :=
  | JNull
  | JBool (b : bool)
  | JNum (n : JsNum)
  | JStr (s : string)
  | JArr (items : list json)
  | JObj (props : list (string * json)).
#[local] Set Elimination Schemes.

(** Own property [k] of an object, as a list of key/value pairs. *)
Fixpoint assoc (k : string) (props : list (string * json)) : option json :=
  match props with
  | [] => None
  | (k', v) :: rest => if String.eqb k k' then Some v else assoc k rest
  end.

(** [v.k] for the keys the handler reads ([messages], [max_tokens],
    [error], [code], ...): none of them is a property of a primitive or
    of an array, so only objects answer. *)
Definition get_prop (v : json) (k : string) : option json :=
  match v with
  | JObj props => assoc k props
  | _ => None
  end.

(** [v?.k] on a possibly undefined value: [null] and [undefined]
    short-circuit to [undefined]. *)
Definition opt_chain (v : option json) (k : string) : option json :=
  match v with
  | None => None
  | Some JNull => None
  | Some o => get_prop o k
  end.

Definition num_is_zero (n : JsNum) : bool :=
  match n with
  | Fin q => Qeq_bool q 0
  | _ => false
  end.

(** JavaScript truthiness. *)
Definition truthy (v : json) : bool :=
  match v with
  | JNull => false
  | JBool b => b
  | JNum n => negb (num_is_zero n)
  | JStr s => negb (String.eqb s "")
  | JArr _ => true
  | JObj _ => true
  end.

Definition truthy_opt (v : option json) : bool :=
  match v with
  | None => false
  | Some x => truthy x
  end.

(** [v === s] for a string literal [s]. *)
Definition strict_eq_str (v : json) (s : string) : bool :=
  match v with
  | JStr s' => String.eqb s' s
  | _ => false
  end.

(** [s.includes(sub)] *)
Definition includes (s sub : string) : bool :=
  match String.index 0 sub s with
  | Some _ => true
  | None => false
  end.

(** ** Model registry *)

Record Env := {
  LLM_PRIMARY_MODEL : option string;
  LLM_SECONDARY_MODEL : option string
}.

(** [process.env.X || fallback]: an unset or empty variable gives the
    fallback. *)
Definition env_or (v : option string) (fallback : string) : string :=
  match v with
  | Some s => if String.eqb s "" then fallback else s
  | None => fallback
  end.

Record ModelConfig := {
  model : string;
  priority : Z;
  maxRetries : nat
}.

Definition primary (env : Env) : ModelConfig :=
  {| model := env_or (LLM_PRIMARY_MODEL env) "x-ai/grok-4-fast:free";
     priority := 1;
     maxRetries := 2 |}.

Definition secondary (env : Env) : ModelConfig :=
  {| model := env_or (LLM_SECONDARY_MODEL env) "deepseek/deepseek-chat";
     priority := 2;
     maxRetries := 3 |}.

Definition tertiary : ModelConfig :=
  {| model := "meta-llama/llama-3.1-8b-instruct:free";
     priority := 3;
     maxRetries := 1 |}.

(** [Object.values(MODEL_CONFIGS)], in the order the keys are written. *)
Definition MODEL_CONFIGS (env : Env) : list ModelConfig :=
  [primary env; secondary env; tertiary].

Definition MAX_TOKENS_DEFAULT : JsNum := num 1200.
Definition MAX_TOKENS_HARD_CAP : JsNum := num 2000.
Definition FALLBACK_STATUS : list Z := [402; 429; 500; 502; 503; 504].

Definition FALLBACK_STATUS_has (status : Z) : bool :=
  existsb (Z.eqb status) FALLBACK_STATUS.

(** ** Health tracker *)

Record Health := {
  lastSuccess : Z;
  failures : Z;
  avgResponseTime : Q
}.

Definition fresh_health : Health :=
  {| lastSuccess := 0; failures := 0; avgResponseTime := 0%Q |}.

(** One health update on a record; [now] is the [Date.now()] read in the
    success branch, [responseTime] is [None] when the argument is
    omitted. [if (responseTime)] is false for an elapsed time of 0. *)
Definition update_record (success : bool) (responseTime : option Z)
    (now : Z) (health : Health) : Health :=
  if success then
    {| lastSuccess := now;
       failures := Z.max 0 (failures health - 1);
       avgResponseTime :=
         match responseTime with
         | Some rt =>
             if Z.eqb rt 0 then avgResponseTime health
             else ((avgResponseTime health + inject_Z rt) / 2)%Q
         | None => avgResponseTime health
         end |}
  else
    {| lastSuccess := lastSuccess health;
       failures := failures health + 1;
       avgResponseTime := avgResponseTime health |}.

Definition updateModelHealth (m : string) (success : bool)
    (responseTime : option Z) (now : Z)
    (modelHealth : gmap string Health) : gmap string Health :=
  let health := default fresh_health (modelHealth !! m) in
  <[m := update_record success responseTime now health]> modelHealth.

(** The predicate of the [filter] in [getHealthyModels]. *)
Definition isHealthy (modelHealth : gmap string Health) (now : Z)
    (config : ModelConfig) : bool :=
  match modelHealth !! model config with
  | None => true
  | Some health =>
      let recentFailures := Z.ltb 3 (failures health) in
      let oldLastSuccess := Z.ltb 300000 (now - lastSuccess health) in
      negb (recentFailures && oldLastSuccess)
  end.

(** [xs.sort((a, b) => a.priority - b.priority)]: a stable sort. *)
Fixpoint insert_by_priority (c : ModelConfig) (l : list ModelConfig)
    : list ModelConfig :=
  match l with
  | [] => [c]
  | d :: rest =>
      if Z.ltb 0 (priority c - priority d)
      then d :: insert_by_priority c rest
      else c :: d :: rest
  end.

Definition sort_by_priority (l : list ModelConfig) : list ModelConfig :=
  foldr insert_by_priority [] l.

Definition getHealthyModels (env : Env) (modelHealth : gmap string Health)
    (now : Z) : list ModelConfig :=
  sort_by_priority (List.filter (isHealthy modelHealth now)
                                (MODEL_CONFIGS env)).

(** ** Transport *)

Record Payload := {
  messages : list json;
  max_tokens : JsNum;
  temperature : option JsNum;
  top_p : option JsNum
}.

(** What [callOpenRouter] returns; [ok] is [res.ok], which [fetch]
    defines as a status in the range 200-299. *)
Record HttpResult := {
  status : Z;
  data : option json;
  raw : string;
  responseTime : Z
}.

Definition ok (r : HttpResult) : bool :=
  Z.leb 200 (status r) && Z.leb (status r) 299.

(** What one [fetch] did: a response came back ([now] is the clock read
    by the health update that follows), or the call threw (network
    failure, abort on timeout). *)
Inductive Fetched :=
  | Responded (res : HttpResult) (now : Z)
  | Threw (message : string).

Definition Upstream := nat -> string -> Fetched.

Inductive Event :=
  | Call (m : string) (payload : Payload) (timeout : json)
  | Sleep (ms : Z).

Definition is_call (e : Event) : bool :=
  match e with
  | Call _ _ _ => true
  | Sleep _ => false
  end.

Definition calls (log : list Event) : list Event :=
  List.filter is_call log.

Record World := {
  modelHealth : gmap string Health;
  log : list Event
}.

Definition emit (e : Event) (w : World) : World :=
  {| modelHealth := modelHealth w; log := log w ++ [e] |}.

Definition setTimeout (ms : Z) (w : World) : World := emit (Sleep ms) w.

(** [callOpenRouter]: [inl] is the returned object, [inr] the message of
    the exception thrown again after the health update. *)
Definition callOpenRouter (transport : Upstream) (m : string)
    (payload : Payload) (timeout : json) (w : World)
    : (HttpResult + string) * World :=
  let k := length (calls (log w)) in
  let w1 := emit (Call m payload timeout) w in
  match transport k m with
  | Responded res now =>
      (inl res,
       {| modelHealth :=
            updateModelHealth m (ok res) (Some (responseTime res)) now
              (modelHealth w1);
          log := log w1 |})
  | Threw message =>
      (inr message,
       {| modelHealth := updateModelHealth m false None 0 (modelHealth w1);
          log := log w1 |})
  end.

(** ** Orchestration *)

Inductive LastError :=
  | HttpError (m : string) (st : Z) (details : json) (attempt : nat)
  | ThrownError (m : string) (error : string) (attempt : nat).

(** The bodies [POST] can answer with. For [Success] the fields are the
    ones the handler writes itself; the upstream body that the handler
    spreads after them is kept apart as [body]. [NextResponse.json] is
    taken to build the answer for whatever status it is given. *)
Inductive Response :=
  | BadRequest
  | NoHealthyModels
  | Success (model_used : string) (response_time : Z) (attempt : nat)
      (body : json)
  | ProviderError (model_attempted : string) (st : Z) (attempt : nat)
      (details : json)
  | AllProvidersFailed (lastError : option LastError)
      (healthStatus : gmap string Health)
  | ServerError.

Definition http_status (r : Response) : Z :=
  match r with
  | BadRequest => 400
  | NoHealthyModels => 503
  | Success _ _ _ _ => 200
  | ProviderError _ st _ _ => if Z.eqb st 0 then 500 else st
  | AllProvidersFailed _ _ => 502
  | ServerError => 500
  end.

Definition RETRYABLE_CODES : list string :=
  ["insufficient_quota"; "insufficient_provider_quota";
   "payment_required"; "rate_limited"].

(** [codes.includes(code)] *)
Definition codes_include (code : option json) : bool :=
  match code with
  | Some (JStr s) => existsb (String.eqb s) RETRYABLE_CODES
  | _ => false
  end.

(** [result.data?.error?.code] *)
Definition error_code (d : option json) : option json :=
  opt_chain (opt_chain d "error") "code".

Definition shouldFallback (result : HttpResult) : bool :=
  FALLBACK_STATUS_has (status result)
  || (truthy_opt (error_code (data result))
      && codes_include (error_code (data result))).

(** [result.data || result.raw] *)
Definition details_of (result : HttpResult) : json :=
  match data result with
  | Some d => if truthy d then d else JStr (raw result)
  | None => JStr (raw result)
  end.

Record Request := {
  basePayload : Payload;
  timeout : json
}.

Definition LoopState : Type := option LastError * World.

(** One pass through the body of the inner [for]: [inl] when the
    handler returns from inside the loop, [inr] when the loop goes on. *)
Definition attemptOnce (transport : Upstream) (rq : Request)
    (modelConfig : ModelConfig) (attempt : nat) (s : LoopState)
    : (Response * World) + LoopState :=
  let '(lastError, w) := s in
  match callOpenRouter transport (model modelConfig) (basePayload rq)
          (timeout rq) w with
  | (inl result, w1) =>
      if ok result && truthy_opt (data result) then
        inl (Success (model modelConfig) (responseTime result) (attempt + 1)
               (default JNull (data result)), w1)
      else if negb (shouldFallback result) then
        inl (ProviderError (model modelConfig) (status result) (attempt + 1)
               (details_of result), w1)
      else
        let lastError' :=
          Some (HttpError (model modelConfig) (status result)
                  (details_of result) (attempt + 1)) in
        if Nat.ltb attempt (maxRetries modelConfig - 1)
        then inr (lastError', setTimeout (2 ^ Z.of_nat attempt * 1000) w1)
        else inr (lastError', w1)
  | (inr message, w1) =>
      let lastError' :=
        Some (ThrownError (model modelConfig) message (attempt + 1)) in
      if Nat.ltb attempt (maxRetries modelConfig - 1)
      then inr (lastError', setTimeout 1000 w1)
      else inr (lastError', w1)
  end.

(** [for (let attempt = ...; attempt < modelConfig.maxRetries; attempt++)],
    with [n] the number of iterations still to run. *)
Fixpoint retryLoop (transport : Upstream) (rq : Request)
    (modelConfig : ModelConfig) (n attempt : nat) (s : LoopState)
    : (Response * World) + LoopState :=
  match n with
  | O => inr s
  | S n' =>
      match attemptOnce transport rq modelConfig attempt s with
      | inl r => inl r
      | inr s' => retryLoop transport rq modelConfig n' (S attempt) s'
      end
  end.

(** [for (const modelConfig of availableModels)] *)
Fixpoint modelLoop (transport : Upstream) (rq : Request)
    (availableModels : list ModelConfig) (s : LoopState)
    : (Response * World) + LoopState :=
  match availableModels with
  | [] => inr s
  | modelConfig :: rest =>
      match retryLoop transport rq modelConfig (maxRetries modelConfig) 0 s
      with
      | inl r => inl r
      | inr s' => modelLoop transport rq rest s'
      end
  end.

(** The candidate list, from the [provider] field of the body. *)
Definition availableModels (env : Env) (modelHealth : gmap string Health)
    (now : Z) (provider : json) : list ModelConfig :=
  if strict_eq_str provider "auto" then getHealthyModels env modelHealth now
  else
    List.filter
      (fun config =>
         if strict_eq_str provider "grok" then includes (model config) "grok"
         else if strict_eq_str provider "deepseek"
              then includes (model config) "deepseek"
         else true)
      (MODEL_CONFIGS env).

Definition is_number (v : option json) : option JsNum :=
  match v with
  | Some (JNum n) => Some n
  | _ => None
  end.

Definition finalMaxTokens (max_tokens : option json) : JsNum :=
  Math_min
    (Math_max (num 1)
       (match is_number max_tokens with
        | Some n => n
        | None => MAX_TOKENS_DEFAULT
        end))
    MAX_TOKENS_HARD_CAP.

Definition messages_of (b : json) : json :=
  default (JArr []) (get_prop b "messages").

Definition provider_of (b : json) : json :=
  default (JStr "auto") (get_prop b "provider").

Definition timeout_of (b : json) : json :=
  default (JNum (num 30000)) (get_prop b "timeout").

Definition request_of (b : json) (msgs : list json) : Request :=
  {| basePayload :=
       {| messages := msgs;
          max_tokens := finalMaxTokens (get_prop b "max_tokens");
          temperature := is_number (get_prop b "temperature");
          top_p := is_number (get_prop b "top_p") |};
     timeout := timeout_of b |}.

(** What follows the loops: a response returned from inside them is the
    answer; when they run to their end the answer is the aggregate
    failure, with [lastError] and the health map at that time. *)
Definition finish (o : (Response * World) + LoopState) : Response * World :=
  match o with
  | inl r => r
  | inr (lastError, w) => (AllProvidersFailed lastError (modelHealth w), w)
  end.

(** The handler. [body] is what [req.json()] gave ([None] when it threw;
    destructuring [null] throws as well), [now] the clock read by
    [getHealthyModels], [health0] the process-wide health map when the
    request arrives. The log of the returned world holds the upstream
    calls and the sleeps of this request, in order. *)
Definition POST (env : Env) (transport : Upstream) (now : Z)
    (body : option json) (health0 : gmap string Health)
    : Response * World :=
  let w0 := {| modelHealth := health0; log := [] |} in
  match body with
  | None => (ServerError, w0)
  | Some JNull => (ServerError, w0)
  | Some b =>
      match messages_of b with
      | JArr msgs =>
          if Nat.eqb (length msgs) 0 then (BadRequest, w0)
          else
            let cs := availableModels env health0 now (provider_of b) in
            if Nat.eqb (length cs) 0 then (NoHealthyModels, w0)
            else
              finish (modelLoop transport (request_of b msgs) cs (None, w0))
      | _ => (BadRequest, w0)
      end
  end.

(** ** The loops as one pass over a schedule

    The pairs (model, attempt) in the order the two nested loops visit
    them, and the same loop body run over that list. *)

Definition schedule (cs : list ModelConfig) : list (ModelConfig * nat) :=
  flat_map (fun c => map (pair c) (seq 0 (maxRetries c))) cs.

Fixpoint runSchedule (transport : Upstream) (rq : Request)
    (l : list (ModelConfig * nat)) (s : LoopState)
    : (Response * World) + LoopState :=
  match l with
  | [] => inr s
  | (c, a) :: rest =>
      match attemptOnce transport rq c a s with
      | inl r => inl r
      | inr s' => runSchedule transport rq rest s'
      end
  end.

(** How the loop body sorts out what one call did. *)
Inductive Verdict := VSuccess | VFatal | VRetry.

Definition classify (f : Fetched) : Verdict :=
  match f with
  | Threw _ => VRetry
  | Responded result _ =>
      if ok result && truthy_opt (data result) then VSuccess
      else if negb (shouldFallback result) then VFatal
      else VRetry
  end.

(** The health map after [callOpenRouter] saw [f] for model [m]. *)
Definition health_after (m : string) (f : Fetched)
    (mh : gmap string Health) : gmap string Health :=
  match f with
  | Responded res now =>
      updateModelHealth m (ok res) (Some (responseTime res)) now mh
  | Threw _ => updateModelHealth m false None 0 mh
  end.

(** The [lastError] written after a retryable attempt. *)
Definition error_of (c : ModelConfig) (a : nat) (f : Fetched) : LastError :=
  match f with
  | Responded res _ =>
      HttpError (model c) (status res) (details_of res) (a + 1)
  | Threw message => ThrownError (model c) message (a + 1)
  end.

(** The delay slept after attempt [a] saw [f], when a retry follows. *)
Definition delay_after (f : Fetched) (a : nat) : Z :=
  match f with
  | Responded _ _ => 2 ^ Z.of_nat a * 1000
  | Threw _ => 1000
  end.

Definition call_of (rq : Request) (c : ModelConfig) : Event :=
  Call (model c) (basePayload rq) (timeout rq).

Definition world_of (o : (Response * World) + LoopState) : World :=
  match o with
  | inl (_, w) => w
  | inr (_, w) => w
  end.

(** The world right after the call of one attempt. *)
Definition called (transport : Upstream) (rq : Request) (c : ModelConfig)
    (w : World) : World :=
  {| modelHealth :=
       health_after (model c)
         (transport (length (calls (log w))) (model c)) (modelHealth w);
     log := log w ++ [call_of rq c] |}.

(** The world at the end of a retryable attempt. *)
Definition backed_off (transport : Upstream) (rq : Request)
    (c : ModelConfig) (a : nat) (w : World) : World :=
  if Nat.ltb a (maxRetries c - 1)
  then setTimeout
         (delay_after (transport (length (calls (log w))) (model c)) a)
         (called transport rq c w)
  else called transport rq c w.

(** What a run of retryable attempts leaves behind: the events logged,
    the [lastError] and the health map, for the attempts [l] made from
    call index [k] on. *)
Fixpoint retry_events (transport : Upstream) (rq : Request) (k : nat)
    (l : list (ModelConfig * nat)) : list Event :=
  match l with
  | [] => []
  | (c, a) :: rest =>
      call_of rq c
      :: (if Nat.ltb a (maxRetries c - 1)
          then [Sleep (delay_after (transport k (model c)) a)]
          else [])
      ++ retry_events transport rq (S k) rest
  end.

Fixpoint retry_lastError (transport : Upstream) (k : nat)
    (l : list (ModelConfig * nat)) (le : option LastError)
    : option LastError :=
  match l with
  | [] => le
  | (c, a) :: rest =>
      retry_lastError transport (S k) rest
        (Some (error_of c a (transport k (model c))))
  end.

Fixpoint retry_health (transport : Upstream) (k : nat)
    (l : list (ModelConfig * nat)) (mh : gmap string Health)
    : gmap string Health :=
  match l with
  | [] => mh
  | (c, a) :: rest =>
      retry_health transport (S k) rest
        (health_after (model c) (transport k (model c)) mh)
  end.

(** Every attempt of [l], made from call index [k] on, is retryable. *)
Definition all_retry (transport : Upstream) (k : nat)
    (l : list (ModelConfig * nat)) : Prop :=
  forall j c a, l !! j = Some (c, a) ->
    classify (transport (k + j)%nat (model c)) = VRetry.

Definition call_model (e : Event) : string :=
  match e with
  | Call m _ _ => m
  | Sleep _ => ""
  end.


(** The attempts a response carries. *)
Definition error_model (e : LastError) : string :=
  match e with
  | HttpError m _ _ _ => m
  | ThrownError m _ _ => m
  end.

Definition error_attempt (e : LastError) : nat :=
  match e with
  | HttpError _ _ _ a => a
  | ThrownError _ _ a => a
  end.


Definition sum_maxRetries (cs : list ModelConfig) : nat :=
  foldr (fun c n => (maxRetries c + n)%nat) O cs.

(** ** Sequences of health updates *)

Record HealthUpdate := {
  u_model : string;
  u_success : bool;
  u_responseTime : option Z;
  u_now : Z
}.

Definition recordOutcome (mh : gmap string Health) (u : HealthUpdate)
    : gmap string Health :=
  updateModelHealth (u_model u) (u_success u) (u_responseTime u) (u_now u) mh.

Definition recordOutcomes (us : list HealthUpdate)
    (mh : gmap string Health) : gmap string Health :=
  foldl recordOutcome mh us.

Definition failures_nonneg (mh : gmap string Health) : Prop :=
  forall m h, mh !! m = Some h -> 0 <= failures h.

(** * The other routes and the client

    ** Decimal digits of a number, as a template literal prints them *)

Definition digits (n : nat) : string :=
  DecimalString.NilEmpty.string_of_uint (Nat.to_uint n).

Definition digits_Z (z : Z) : string :=
  DecimalString.NilZero.string_of_int (Z.to_int z).

(** ** [safeJsonExtract] of the prompt-generation route

    [s.match(/\{[\s\S]*\}/)]: the match starts at the first opening
    brace and, the star being greedy, ends at the last closing brace
    after it; without such a pair there is no match and [s] is
    returned. Characters matter only through being one of the two braces
    or not. *)

(** The part of [s] from the first [c] on. *)
Fixpoint from_first (c : ascii) (s : string) : option string :=
  match s with
  | EmptyString => None
  | String a rest =>
      if Ascii.eqb a c then Some s else from_first c rest
  end.

(** The part of [s] up to the last [c]. *)
Fixpoint upto_last (c : ascii) (s : string) : option string :=
  match s with
  | EmptyString => None
  | String a rest =>
      match upto_last c rest with
      | Some p => Some (String a p)
      | None => if Ascii.eqb a c then Some (String a EmptyString) else None
      end
  end.

Definition safeJsonExtract (s : string) : string :=
  match from_first "{" s with
  | Some (String open rest) =>
      match upto_last "}" rest with
      | Some inner => String open inner
      | None => s
      end
  | _ => s
  end.

Fixpoint occurs (c : ascii) (s : string) : bool :=
  match s with
  | EmptyString => false
  | String a rest => Ascii.eqb a c || occurs c rest
  end.

(** ** The studio client *)

(** [f.includes(id) ? f.filter(x => x !== id) : [...f, id]] *)
Definition toggleFavorite (id : string) (f : list string) : list string :=
  if existsb (String.eqb id) f
  then List.filter (fun x => negb (String.eqb x id)) f
  else f ++ [id].

Definition qualityToTag (n : Z) : string :=
  if Z.leb 9 n then "9/10"
  else if Z.leb 8 n then "8/10"
  else if Z.leb 7 n then "7/10"
  else if Z.leb 6 n then "6/10"
  else (digits_Z (Z.max 1 (Z.min 10 n)) ++ "/10")%string.

(** The pose selector: [pose || NONE] goes to the select box,
    [v === NONE ? '' : v] comes back from it. *)
Definition NONE : string := "NONE".

Definition select_value (pose : string) : string :=
  if String.eqb pose "" then NONE else pose.

Definition pose_of_select (v : string) : string :=
  if String.eqb v NONE then "" else v.

(** ** Toasts *)

Inductive ToastType := ToastSuccess | ToastError | ToastInfo | ToastWarning.

(** A toast without its [id], as [addToast] receives it. *)
Record ToastInput := {
  t_type : ToastType;
  t_title : string;
  t_message : option string;
  t_duration : option Z
}.

Record Toast := {
  toast_id : string;
  toast_body : ToastInput
}.

(** The counter of the module and the list held by the hook. *)
Record ToastState := {
  toastCount : nat;
  toasts : list Toast
}.

Definition addToast (toast : ToastInput) (st : ToastState)
    : string * ToastState :=
  let n := S (toastCount st) in
  let id := ("toast-" ++ digits n)%string in
  (id, {| toastCount := n;
          toasts := toasts st ++ [{| toast_id := id; toast_body := toast |}] |}).

Definition removeToast (id : string) (st : ToastState) : ToastState :=
  {| toastCount := toastCount st;
     toasts := List.filter (fun t => negb (String.eqb (toast_id t) id))
                 (toasts st) |}.

Inductive ToastOp :=
  | Add (toast : ToastInput)
  | Remove (id : string).

Definition toast_step (st : ToastState) (op : ToastOp) : ToastState :=
  match op with
  | Add toast => (addToast toast st).2
  | Remove id => removeToast id st
  end.

Definition toast_run (ops : list ToastOp) (st : ToastState) : ToastState :=
  foldl toast_step st ops.

(** The ids of a state are the ids handed out so far. *)
Definition ids_in_range (st : ToastState) : Prop :=
  forall t, In t (toasts st) ->
    exists k, (1 <= k <= toastCount st)%nat
              /\ toast_id t = ("toast-" ++ digits k)%string.

Definition toasts_ok (st : ToastState) : Prop :=
  List.NoDup (map toast_id (toasts st)) /\ ids_in_range st.

(** ** The studio page and the answers of the route

    What [JSON.stringify] followed by [JSON.parse] makes of a value:
    the infinities come back as [null], the rest as it is. *)
Fixpoint wire (v : json) : json :=
  match v with
  | JNum PosInf => JNull
  | JNum NegInf => JNull
  | JArr items => JArr (map wire items)
  | JObj props =>
      JObj (map (fun p => match p with (k, x) => (k, wire x) end) props)
  | _ => v
  end.

Definition has_key (k : string) (props : list (string * json)) : bool :=
  existsb (fun p => String.eqb k p.1) props.

(** [{ ...base, ...extra }]: a key of [base] keeps its place and takes
    the value [extra] gives it, the other keys of [extra] follow. *)
Definition override (base extra : list (string * json))
    : list (string * json) :=
  map (fun p => (p.1, default p.2 (assoc p.1 extra))) base
  ++ List.filter (fun p => negb (has_key p.1 base)) extra.

Fixpoint index_props (i : nat) (items : list json) : list (string * json) :=
  match items with
  | [] => []
  | x :: rest => (digits i, x) :: index_props (S i) rest
  end.

Fixpoint char_props (i : nat) (s : string) : list (string * json) :=
  match s with
  | EmptyString => []
  | String a rest =>
      (digits i, JStr (String a EmptyString)) :: char_props (S i) rest
  end.

(** The own properties [...d] copies. *)
Definition spread (d : json) : list (string * json) :=
  match d with
  | JObj props => props
  | JArr items => index_props 0 items
  | JStr s => char_props 0 s
  | _ => []
  end.

Definition nat_num (n : nat) : json := JNum (num (Z.of_nat n)).

Definition lastError_json (e : option LastError) : json :=
  match e with
  | None => JNull
  | Some (HttpError m st details a) =>
      JObj [("model", JStr m); ("status", JNum (num st));
            ("details", details); ("attempt", nat_num a)]
  | Some (ThrownError m message a) =>
      JObj [("model", JStr m); ("error", JStr message);
            ("attempt", nat_num a)]
  end.

Definition health_json (h : Health) : json :=
  JObj [("lastSuccess", JNum (num (lastSuccess h)));
        ("failures", JNum (num (failures h)));
        ("avgResponseTime", JNum (Fin (avgResponseTime h)))].

(** [Object.fromEntries(modelHealth.entries())] *)
Definition healthStatus_json (mh : gmap string Health) : json :=
  JObj (map (fun p => (p.1, health_json p.2)) (map_to_list mh)).

(** The object each answer hands to [NextResponse.json]; [message] and
    [timestamp] are the two strings of the answer of the outer [catch]. *)
Definition response_body (message timestamp : string) (r : Response) : json :=
  match r with
  | BadRequest =>
      JObj [("error", JBool true);
            ("message", JStr "messages[] is required and must not be empty")]
  | NoHealthyModels =>
      JObj [("error", JBool true);
            ("message", JStr "No healthy models available")]
  | Success m rt a d =>
      JObj (override
              [("model_used", JStr m); ("response_time", JNum (num rt));
               ("attempt", nat_num a); ("health_status", JStr "healthy")]
              (spread d))
  | ProviderError m st a details =>
      JObj [("error", JBool true); ("model_attempted", JStr m);
            ("status", JNum (num st)); ("attempt", nat_num a);
            ("details", details)]
  | AllProvidersFailed lastError healthStatus =>
      JObj [("error", JBool true);
            ("message", JStr "All providers failed after retries");
            ("lastError", lastError_json lastError);
            ("healthStatus", healthStatus_json healthStatus)]
  | ServerError =>
      JObj [("error", JBool true); ("message", JStr message);
            ("timestamp", JStr timestamp)]
  end.

(** What the client gets from [res.json()]. *)
Definition response_json (message timestamp : string) (r : Response) : json :=
  wire (response_body message timestamp r).

(** [v?.[0]] *)
Definition js_index0 (v : option json) : option json :=
  match v with
  | Some (JArr (x :: _)) => Some x
  | Some (JObj props) => assoc "0" props
  | Some (JStr (String a _)) => Some (JStr (String a EmptyString))
  | _ => None
  end.

(** [data?.choices?.[0]?.message?.content || "No output"], the text
    [handleOptimize] puts on the page. *)
Definition page_text (data : json) : json :=
  let content :=
    opt_chain (opt_chain (js_index0 (opt_chain (Some data) "choices"))
                 "message") "content" in
  if truthy_opt content then default JNull content else JStr "No output".

(** The request [handleOptimize] sends. *)
Definition page_request : json :=
  JObj [("provider", JStr "auto");
        ("messages",
         JArr [JObj [("role", JStr "user");
                     ("content",
                      JStr "Write a 3-line product blurb about steel bowls.")]]);
        ("max_tokens", JNum (num 1200));
        ("temperature", JNum (Fin (7 # 10)));
        ("top_p", JNum (num 1))].

(** ** Sample data *)

Definition env0 : Env :=
  {| LLM_PRIMARY_MODEL := None; LLM_SECONDARY_MODEL := None |}.

Definition streak (n : Z) (last : Z) : Health :=
  {| lastSuccess := last; failures := n; avgResponseTime := 0%Q |}.

Definition health_streak5 : gmap string Health :=
  {[ model tertiary := streak 5 0 ]}.

Definition a_success : HealthUpdate :=
  {| u_model := model tertiary; u_success := true;
     u_responseTime := Some 120; u_now := 1000 |}.

Definition user_message : json :=
  JObj [("role", JStr "user"); ("content", JStr "hi")].

Definition body_hi : json := JObj [("messages", JArr [user_message])].

Definition body_openai : json :=
  JObj [("messages", JArr [user_message]); ("provider", JStr "openai")].



Definition clock0 : Z := 1700000000000.

Definition too_many_requests : HttpResult :=
  {| status := 429; data := None; raw := "Too Many Requests";
     responseTime := 40 |}.



Definition completion : HttpResult :=
  {| status := 200; data := Some (JObj [("id", JStr "gen-1")]);
     raw := "{}"; responseTime := 850 |}.

Definition always (r : HttpResult) : Upstream :=
  fun _ _ => Responded r clock0.


Definition flaky_network : Upstream :=
  fun k _ => if Nat.eqb k 1 then Threw "fetch failed"
             else Responded too_many_requests clock0.

Definition health_stale : gmap string Health :=
  {[ model tertiary := streak 4 (clock0 - 600000) ]}.

Definition health_recent : gmap string Health :=
  {[ model tertiary := streak 4 (clock0 - 60000) ]}.

Definition fresh_world : World := {| modelHealth := ∅; log := [] |}.

(** ** Further vocabulary for the handler

    What an answer of the upstream looks like when the loop goes on with
    it: the call threw, or it is an HTTP failure with a fallback status
    or a retryable error code. *)
Definition retryable_answer (f : Fetched) : Prop :=
  match f with
  | Threw _ => True
  | Responded res _ =>
      ok res = false
      /\ (FALLBACK_STATUS_has (status res) = true
          \/ codes_include (error_code (data res)) = true)
  end.

(** The model and the attempt number an answer reports, if any. *)
Definition attempt_of_response (r : Response) : option (string * nat) :=
  match r with
  | Success m _ a _ => Some (m, a)
  | ProviderError m _ a _ => Some (m, a)
  | AllProvidersFailed (Some e) _ => Some (error_model e, error_attempt e)
  | _ => None
  end.

(** The time slept during a request. *)
Definition total_sleep (log : list Event) : Z :=
  foldr (fun e acc => match e with Sleep ms => ms + acc | _ => acc end) 0 log.

(** The longest the retries of a list of attempts can sleep. *)
Definition sleep_budget (l : list (ModelConfig * nat)) : Z :=
  foldr (fun p acc =>
           (if Nat.ltb p.2 (maxRetries p.1 - 1)
            then 2 ^ Z.of_nat p.2 * 1000 else 0) + acc) 0 l.

Definition failures_of (mh : gmap string Health) (m : string) : Z :=
  failures (default fresh_health (mh !! m)).

Definition lastSuccess_of (mh : gmap string Health) (m : string) : Z :=
  lastSuccess (default fresh_health (mh !! m)).

Definition named (m : string) (c : ModelConfig) : bool :=
  String.eqb (model c) m.

(** The health map updated once per call, for the models called in
    order from call index [k] on. *)
Fixpoint health_trace (transport : Upstream) (k : nat) (ms : list string)
    (mh : gmap string Health) : gmap string Health :=
  match ms with
  | [] => mh
  | m :: rest =>
      health_trace transport (S k) rest (health_after m (transport k m) mh)
  end.

(** ** The process: requests served one after the other

    Each request runs [POST] on the health map the one before it left. *)
Record Incoming := {
  in_transport : Upstream;
  in_now : Z;
  in_body : json
}.

Fixpoint serve (env : Env) (reqs : list Incoming)
    (mh : gmap string Health) : list (Response * World) :=
  match reqs with
  | [] => []
  | r :: rest =>
      let out := POST env (in_transport r) (in_now r) (Some (in_body r)) mh in
      out :: serve env rest (modelHealth out.2)
  end.

Definition health_after_serving (outs : list (Response * World))
    (mh : gmap string Health) : gmap string Health :=
  match last outs with
  | Some out => modelHealth out.2
  | None => mh
  end.

Definition body_grok : json :=
  JObj [("messages", JArr [user_message]); ("provider", JStr "grok")].

Definition null_body : HttpResult :=
  {| status := 200; data := Some JNull; raw := "null"; responseTime := 15 |}.

Definition a_failure : HealthUpdate :=
  {| u_model := model tertiary; u_success := false;
     u_responseTime := None; u_now := 2000 |}.

Definition auto_request : Incoming :=
  {| in_transport := always completion; in_now := clock0 + 5;
     in_body := body_hi |}.

Definition health_all_stale : gmap string Health :=
  {[ model (primary env0) := streak 4 0;
     model (secondary env0) := streak 6 0;
     model tertiary := streak 4 (clock0 - 600000) ]}.


(** * Health tracker: proofs *)

Lemma update_record_failures_nonneg success rt now h :
  0 <= failures h -> 0 <= failures (update_record success rt now h).
Proof.
  unfold update_record. destruct success; simpl; lia.
Qed.

Lemma updateModelHealth_lookup m success rt now (mh : gmap string Health) :
  updateModelHealth m success rt now mh !! m
  = Some (update_record success rt now (default fresh_health (mh !! m))).
Proof. unfold updateModelHealth. apply lookup_insert_eq. Qed.

Lemma updateModelHealth_lookup_ne m m' success rt now
    (mh : gmap string Health) :
  m <> m' -> updateModelHealth m success rt now mh !! m' = mh !! m'.
Proof. intros Hne. unfold updateModelHealth. by apply lookup_insert_ne. Qed.

Lemma updateModelHealth_nonneg m success rt now mh :
  failures_nonneg mh ->
  failures_nonneg (updateModelHealth m success rt now mh).
Proof.
  intros Hinv m' h' Hl.
  destruct (decide (m = m')) as [<- | Hne].
  - rewrite updateModelHealth_lookup in Hl. injection Hl as <-.
    apply update_record_failures_nonneg.
    destruct (mh !! m) as [h|] eqn:E; simpl; [by eapply Hinv | done].
  - rewrite updateModelHealth_lookup_ne in Hl by done. by eapply Hinv.
Qed.

Lemma recordOutcomes_nonneg us : forall mh,
  failures_nonneg mh -> failures_nonneg (recordOutcomes us mh).
Proof.
  induction us as [|u us IH]; intros mh Hinv; simpl; [done |].
  apply IH. by apply updateModelHealth_nonneg.
Qed.

(** C7. For every health map whose counters are not negative (the empty
    map of a fresh process is one) and every sequence of recorded
    outcomes, no [failures] counter is negative afterwards. A success on a
    record sets [lastSuccess] to now and takes one off [failures], not
    going below 0; a failure adds one and leaves [lastSuccess] and
    [avgResponseTime] as they were. A record at 5 failures is at 4 after
    one success, and at 1 after three more. *)
Theorem recordOutcome_failures_floor :
  forall (mh : gmap string Health) (us : list HealthUpdate),
    failures_nonneg mh ->
    failures_nonneg (recordOutcomes us mh)
    /\ (forall m rt now h, mh !! m = Some h ->
          exists h', updateModelHealth m true rt now mh !! m = Some h'
            /\ lastSuccess h' = now
            /\ failures h' = Z.max 0 (failures h - 1))
    /\ (forall m rt now h, mh !! m = Some h ->
          exists h', updateModelHealth m false rt now mh !! m = Some h'
            /\ failures h' = failures h + 1
            /\ lastSuccess h' = lastSuccess h
            /\ avgResponseTime h' = avgResponseTime h)
    /\ (forall m h u1 u2 u3 u4, mh !! m = Some h -> failures h = 5 ->
          u_model u1 = m -> u_success u1 = true ->
          u_model u2 = m -> u_success u2 = true ->
          u_model u3 = m -> u_success u3 = true ->
          u_model u4 = m -> u_success u4 = true ->
          exists h1 h4,
            recordOutcomes [u1] mh !! m = Some h1 /\ failures h1 = 4
            /\ recordOutcomes [u1; u2; u3; u4] mh !! m = Some h4
            /\ failures h4 = 1).
Proof.
  intros mh us Hinv. split; [by apply recordOutcomes_nonneg |].
  split; [| split].
  - intros m rt now h Hl. eexists. rewrite updateModelHealth_lookup, Hl.
    split; [done |]. by simpl.
  - intros m rt now h Hl. eexists. rewrite updateModelHealth_lookup, Hl.
    split; [done |]. by simpl.
  - intros m h u1 u2 u3 u4 Hl Hf E1 S1 E2 S2 E3 S3 E4 S4.
    unfold recordOutcomes, recordOutcome; simpl.
    rewrite E1, E2, E3, E4, S1, S2, S3, S4.
    eexists _, _. rewrite !updateModelHealth_lookup, Hl.
    split; [done |]. simpl. rewrite Hf.
    split; [done |]. split; [done |]. done.
Qed.

(** The witness: a record at 5 failures, four successes in a row. *)
Lemma recordOutcome_failures_floor_witness :
  failures_nonneg health_streak5
  /\ exists h1 h4,
       recordOutcomes [a_success] health_streak5 !! model tertiary = Some h1
       /\ failures h1 = 4
       /\ recordOutcomes [a_success; a_success; a_success; a_success]
            health_streak5 !! model tertiary = Some h4
       /\ failures h4 = 1.
Proof.
  assert (H : failures_nonneg health_streak5).
  { intros m h Hl. unfold health_streak5 in Hl.
    apply lookup_singleton_Some in Hl as [_ <-]. simpl. lia. }
  split; [exact H |].
  destruct (recordOutcome_failures_floor health_streak5 [] H)
    as (_ & _ & _ & H4).
  apply (H4 (model tertiary) (streak 5 0) a_success a_success a_success
            a_success); reflexivity.
Defined.

(** * Candidate selection: proofs *)

Lemma In_insert_by_priority x c l :
  In x (insert_by_priority c l) <-> x = c \/ In x l.
Proof.
  induction l as [|d l IH]; simpl.
  - intuition congruence.
  - destruct (Z.ltb 0 (priority c - priority d)); simpl; rewrite ?IH;
      intuition congruence.
Qed.

Lemma In_sort_by_priority x l : In x (sort_by_priority l) <-> In x l.
Proof.
  induction l as [|c l IH]; simpl; [tauto |].
  rewrite In_insert_by_priority, IH. intuition congruence.
Qed.

Lemma In_getHealthyModels env mh now c :
  In c (getHealthyModels env mh now)
  <-> In c (MODEL_CONFIGS env) /\ isHealthy mh now c = true.
Proof.
  unfold getHealthyModels. rewrite In_sort_by_priority. apply filter_In.
Qed.

Lemma availableModels_auto env mh now :
  availableModels env mh now (JStr "auto") = getHealthyModels env mh now.
Proof. reflexivity. Qed.

Lemma isHealthy_false_iff mh now c :
  isHealthy mh now c = false
  <-> exists h, mh !! model c = Some h
        /\ failures h > 3 /\ now - lastSuccess h > 300000.
Proof.
  unfold isHealthy. destruct (mh !! model c) as [h|] eqn:E.
  - rewrite negb_false_iff, andb_true_iff, !Z.ltb_lt. split.
    + intros [H1 H2]. exists h. split; [done | split; lia].
    + intros (h' & Heq & H1 & H2). injection Heq as <-. lia.
  - split; [discriminate |]. intros (h' & Heq & _). discriminate.
Qed.

(** C8. The filter of [getHealthyModels] rejects a model exactly when
    its record has more than 3 failures and a last success more than
    300000 ms before now; a model without a record passes. Under the
    "auto" hint a registry model at 4 failures whose last success is 10
    minutes old is not a candidate, and the same model with a last
    success 1 minute old is one. *)
Theorem isHealthy_dual_condition :
  forall (env : Env) (mh : gmap string Health) (now : Z) (c : ModelConfig),
    (isHealthy mh now c = false
     <-> exists h, mh !! model c = Some h
           /\ failures h > 3 /\ now - lastSuccess h > 300000)
    /\ (mh !! model c = None -> isHealthy mh now c = true)
    /\ (forall h, In c (MODEL_CONFIGS env) -> mh !! model c = Some h ->
          failures h = 4 -> lastSuccess h = now - 600000 ->
          ~ In c (availableModels env mh now (JStr "auto")))
    /\ (forall h, In c (MODEL_CONFIGS env) -> mh !! model c = Some h ->
          failures h = 4 -> lastSuccess h = now - 60000 ->
          In c (availableModels env mh now (JStr "auto"))).
Proof.
  intros env mh now c. split; [apply isHealthy_false_iff |].
  split; [| split].
  - intros E. unfold isHealthy. by rewrite E.
  - intros h Hin Hl Hf Hs. rewrite availableModels_auto, In_getHealthyModels.
    intros [_ Hh].
    assert (isHealthy mh now c = false) as Hu.
    { apply isHealthy_false_iff. exists h. split; [done | split; lia]. }
    congruence.
  - intros h Hin Hl Hf Hs. rewrite availableModels_auto, In_getHealthyModels.
    split; [done |]. destruct (isHealthy mh now c) eqn:E; [done |].
    apply isHealthy_false_iff in E as (h' & Heq & H1 & H2).
    assert (h' = h) by congruence. subst h'. lia.
Qed.

(** * The orchestration loop: proofs *)

Section Loop.
Variable transport : Upstream.
Variable rq : Request.

Lemma calls_app l1 l2 : calls (l1 ++ l2) = calls l1 ++ calls l2.
Proof. apply List.filter_app. Qed.

Lemma attemptOnce_success c a le w res now :
  transport (length (calls (log w))) (model c) = Responded res now ->
  classify (Responded res now) = VSuccess ->
  attemptOnce transport rq c a (le, w)
  = inl (Success (model c) (responseTime res) (a + 1)
           (default JNull (data res)), called transport rq c w).
Proof.
  intros Hf Hc. unfold attemptOnce, callOpenRouter, called.
  rewrite Hf. simpl in *.
  destruct (ok res && truthy_opt (data res)); [done |].
  destruct (negb (shouldFallback res)); discriminate.
Qed.

Lemma attemptOnce_fatal c a le w res now :
  transport (length (calls (log w))) (model c) = Responded res now ->
  classify (Responded res now) = VFatal ->
  attemptOnce transport rq c a (le, w)
  = inl (ProviderError (model c) (status res) (a + 1) (details_of res),
         called transport rq c w).
Proof.
  intros Hf Hc. unfold attemptOnce, callOpenRouter, called.
  rewrite Hf. simpl in *.
  destruct (ok res && truthy_opt (data res)); [discriminate |].
  destruct (negb (shouldFallback res)); [done | discriminate].
Qed.

Lemma attemptOnce_retry c a le w :
  classify (transport (length (calls (log w))) (model c)) = VRetry ->
  attemptOnce transport rq c a (le, w)
  = inr (Some (error_of c a
                 (transport (length (calls (log w))) (model c))),
         backed_off transport rq c a w).
Proof.
  intros Hc. unfold attemptOnce, callOpenRouter, backed_off, called.
  destruct (transport (length (calls (log w))) (model c))
    as [res now | msg]; simpl in *.
  - destruct (ok res && truthy_opt (data res)); [discriminate |].
    destruct (negb (shouldFallback res)); [discriminate |].
    by destruct (Nat.ltb a (maxRetries c - 1)).
  - by destruct (Nat.ltb a (maxRetries c - 1)).
Qed.

Lemma calls_called c w :
  calls (log (called transport rq c w)) = calls (log w) ++ [call_of rq c].
Proof. unfold called; simpl. by rewrite calls_app. Qed.

Lemma calls_backed_off c a w :
  calls (log (backed_off transport rq c a w)) = calls (log w) ++ [call_of rq c].
Proof.
  unfold backed_off. destruct (Nat.ltb a (maxRetries c - 1)).
  - unfold setTimeout, emit; simpl. rewrite !calls_app; simpl.
    by rewrite app_nil_r.
  - apply calls_called.
Qed.

(** Whatever the call did, the attempt made exactly that one call. *)
Lemma attemptOnce_calls c a le w :
  calls (log (world_of (attemptOnce transport rq c a (le, w))))
  = calls (log w) ++ [call_of rq c].
Proof.
  destruct (classify (transport (length (calls (log w))) (model c)))
    eqn:Hc.
  - destruct (transport (length (calls (log w))) (model c))
      as [res now | msg] eqn:Hf; [| discriminate].
    rewrite (attemptOnce_success _ _ _ _ _ _ Hf Hc). apply calls_called.
  - destruct (transport (length (calls (log w))) (model c))
      as [res now | msg] eqn:Hf; [| discriminate].
    rewrite (attemptOnce_fatal _ _ _ _ _ _ Hf Hc). apply calls_called.
  - rewrite (attemptOnce_retry _ _ _ _ Hc). apply calls_backed_off.
Qed.

Lemma runSchedule_app l1 l2 s :
  runSchedule transport rq (l1 ++ l2) s
  = match runSchedule transport rq l1 s with
    | inl r => inl r
    | inr s' => runSchedule transport rq l2 s'
    end.
Proof.
  revert s. induction l1 as [|[c a] l1 IH]; intros s; simpl; [done |].
  destruct (attemptOnce transport rq c a s); [done | apply IH].
Qed.

Lemma retryLoop_schedule c n a s :
  retryLoop transport rq c n a s
  = runSchedule transport rq (map (pair c) (seq a n)) s.
Proof.
  revert a s. induction n as [|n IH]; intros a s; simpl; [done |].
  destruct (attemptOnce transport rq c a s); [done | apply IH].
Qed.

Lemma modelLoop_schedule cs s :
  modelLoop transport rq cs s = runSchedule transport rq (schedule cs) s.
Proof.
  revert s. induction cs as [|c cs IH]; intros s; simpl; [done |].
  unfold schedule; simpl. rewrite runSchedule_app, retryLoop_schedule.
  destruct (runSchedule transport rq (map (pair c) (seq 0 (maxRetries c))) s);
    [done | apply IH].
Qed.

Lemma all_retry_cons k c a l :
  all_retry transport k ((c, a) :: l) ->
  classify (transport k (model c)) = VRetry
  /\ all_retry transport (S k) l.
Proof.
  intros H. split.
  - specialize (H O c a eq_refl). by rewrite Nat.add_0_r in H.
  - intros j c' a' Hl. specialize (H (S j) c' a' Hl).
    by rewrite Nat.add_succ_r in H.
Qed.

Lemma calls_retry_events k l :
  calls (retry_events transport rq k l) = map (fun p => call_of rq p.1) l.
Proof.
  revert k. induction l as [|[c a] l IH]; intros k; simpl; [done |].
  f_equal. rewrite calls_app, IH.
  by destruct (Nat.ltb a (maxRetries c - 1)).
Qed.

(** A run of retryable attempts goes through the whole list. *)
Lemma runSchedule_all_retry l : forall le w,
  all_retry transport (length (calls (log w))) l ->
  runSchedule transport rq l (le, w)
  = inr (retry_lastError transport (length (calls (log w))) l le,
         {| modelHealth :=
              retry_health transport (length (calls (log w))) l
                (modelHealth w);
            log := log w
                   ++ retry_events transport rq (length (calls (log w))) l |}).
Proof.
  induction l as [|[c a] l IH]; intros le w Hall;
    cbn [runSchedule retry_events retry_lastError retry_health].
  - rewrite app_nil_r. by destruct w.
  - apply all_retry_cons in Hall as [Hc Hall].
    rewrite (attemptOnce_retry _ _ _ _ Hc).
    assert (length (calls (log (backed_off transport rq c a w)))
            = S (length (calls (log w)))) as Hlen.
    { rewrite calls_backed_off, length_app; simpl. lia. }
    rewrite IH; rewrite Hlen; [| done].
    f_equal. unfold backed_off, called, setTimeout, emit.
    destruct (Nat.ltb a (maxRetries c - 1)); simpl;
      by rewrite <- ?app_assoc.
Qed.

(** The calls made are the calls of an initial part of the list. *)
Lemma runSchedule_calls l : forall le w,
  exists j,
    calls (log (world_of (runSchedule transport rq l (le, w))))
    = calls (log w) ++ map (fun p => call_of rq p.1) (take j l).
Proof.
  induction l as [|[c a] l IH]; intros le w; cbn [runSchedule].
  - exists O. simpl. by rewrite app_nil_r.
  - pose proof (attemptOnce_calls c a le w) as Hc.
    destruct (attemptOnce transport rq c a (le, w)) as [r | [le' w1]].
    + exists 1%nat. by rewrite Hc.
    + destruct (IH le' w1) as [j Hj]. exists (S j).
      rewrite Hj. simpl in Hc. rewrite Hc. simpl.
      by rewrite <- app_assoc.
Qed.

(** A call answered with a fatal verdict is the last thing the run
    did, and its failure is what the run returns. *)
Lemma runSchedule_fatal_at l : forall le w k m p tm res now,
  calls (log (world_of (runSchedule transport rq l (le, w)))) !! k
  = Some (Call m p tm) ->
  (length (calls (log w)) <= k)%nat ->
  transport k m = Responded res now ->
  classify (Responded res now) = VFatal ->
  exists c a w',
    l !! (k - length (calls (log w)))%nat = Some (c, a)
    /\ model c = m
    /\ runSchedule transport rq l (le, w)
       = inl (ProviderError m (status res) (a + 1) (details_of res), w')
    /\ length (calls (log w')) = S k
    /\ last (log w') = Some (Call m p tm).
Proof.
  induction l as [|[c a] l IH]; intros le w k m p tm res now Hk Hle Hf Hv.
  - simpl in Hk. apply lookup_lt_Some in Hk. lia.
  - cbn [runSchedule] in Hk |- *.
    destruct (decide (k = length (calls (log w)))) as [-> | Hne].
    + (* the call in question is the one of this attempt *)
      assert (Call m p tm = call_of rq c) as Hcall.
      { destruct (runSchedule_calls ((c, a) :: l) le w) as [j Hj].
        cbn [runSchedule] in Hj. rewrite Hj in Hk.
        destruct j as [|j].
        - simpl in Hk. rewrite app_nil_r in Hk.
          apply lookup_lt_Some in Hk. lia.
        - simpl in Hk. rewrite lookup_app_r in Hk by lia.
          rewrite Nat.sub_diag in Hk. simpl in Hk. congruence. }
      injection Hcall as -> -> ->.
      rewrite (attemptOnce_fatal _ _ _ _ _ _ Hf Hv).
      exists c, a, (called transport rq c w).
      rewrite Nat.sub_diag. repeat split.
      * rewrite calls_called, length_app. simpl. lia.
      * unfold called; simpl. by rewrite last_snoc.
    + pose proof (attemptOnce_calls c a le w) as Hc.
      destruct (attemptOnce transport rq c a (le, w)) as [[r w1] | [le' w1]];
        simpl in Hc, Hk.
      * rewrite Hc in Hk. apply lookup_lt_Some in Hk.
        rewrite length_app in Hk. simpl in Hk. lia.
      * assert (length (calls (log w1)) = S (length (calls (log w))))
          as Hlen by (rewrite Hc, length_app; simpl; lia).
        destruct (IH le' w1 k m p tm res now Hk ltac:(lia) Hf Hv)
          as (c' & a' & w' & Hl & Hm & Hr & Hn & Hlast).
        exists c', a', w'. repeat split; try done.
        rewrite Hlen in Hl.
        replace (k - length (calls (log w)))%nat
          with (S (k - S (length (calls (log w)))))%nat by lia.
        done.
Qed.

End Loop.

(** * The handler: proofs *)

Lemma world_of_finish o : (finish o).2 = world_of o.
Proof. by destruct o as [[r w] | [le w]]. Qed.

(** A request with a non-empty message list and at least one candidate
    goes through the loops; any other is answered at once. *)
Lemma POST_run env transport now b h0 msgs :
  messages_of b = JArr msgs -> msgs <> [] ->
  availableModels env h0 now (provider_of b) <> [] ->
  POST env transport now (Some b) h0
  = finish (runSchedule transport (request_of b msgs)
              (schedule (availableModels env h0 now (provider_of b)))
              (None, {| modelHealth := h0; log := [] |})).
Proof.
  intros Hm Hne Hcs. unfold POST. rewrite Hm.
  destruct msgs as [|m0 ms]; [done |]. simpl.
  destruct (availableModels env h0 now (provider_of b)) as [|c cs] eqn:E;
    [done |].
  cbn [length Nat.eqb]. rewrite modelLoop_schedule.
  destruct b; try done.
Qed.

Lemma POST_cases env transport now body h0 :
  (POST env transport now body h0).2 = {| modelHealth := h0; log := [] |}
  \/ exists b msgs,
       body = Some b /\ messages_of b = JArr msgs /\ msgs <> []
       /\ availableModels env h0 now (provider_of b) <> [].
Proof.
  destruct body as [b|]; [| by left].
  destruct (messages_of b) as [| | | |msgs|] eqn:Hm;
    try (left; unfold POST; rewrite Hm; by destruct b).
  destruct msgs as [|m0 ms].
  { left. unfold POST. rewrite Hm. by destruct b. }
  destruct (availableModels env h0 now (provider_of b)) as [|c cs] eqn:E.
  { left. unfold POST. rewrite Hm, E. by destruct b. }
  right. exists b, (m0 :: ms). by rewrite E.
Qed.

Lemma ok_not_fallback res : ok res = true -> FALLBACK_STATUS_has (status res) = false.
Proof.
  unfold ok, FALLBACK_STATUS_has, FALLBACK_STATUS. simpl.
  rewrite andb_true_iff, !Z.leb_le. intros [H1 H2].
  rewrite !orb_false_iff, !Z.eqb_neq. lia.
Qed.

(** A call of the handler answered with a fatal verdict. *)
Lemma POST_fatal_at env transport now b h0 k m p tm res tnow :
  calls (log (POST env transport now (Some b) h0).2) !! k
  = Some (Call m p tm) ->
  transport k m = Responded res tnow ->
  classify (Responded res tnow) = VFatal ->
  exists c a,
    schedule (availableModels env h0 now (provider_of b)) !! k = Some (c, a)
    /\ model c = m
    /\ (POST env transport now (Some b) h0).1
       = ProviderError m (status res) (a + 1) (details_of res)
    /\ length (calls (log (POST env transport now (Some b) h0).2)) = S k
    /\ last (log (POST env transport now (Some b) h0).2)
       = Some (Call m p tm).
Proof.
  intros Hk Hf Hv.
  destruct (POST_cases env transport now (Some b) h0)
    as [Hw | (b' & msgs & Hb & Hm & Hne & Hcs)].
  { rewrite Hw in Hk. done. }
  injection Hb as <-.
  rewrite (POST_run _ _ _ _ _ _ Hm Hne Hcs) in Hk |- *.
  rewrite world_of_finish in Hk |- *.
  destruct (runSchedule_fatal_at transport (request_of b msgs) _ _ _ _ _ _ _
              _ _ Hk ltac:(simpl; lia) Hf Hv)
    as (c & a & w' & Hl & Hmod & Hr & Hn & Hlast).
  simpl in Hl. rewrite Nat.sub_0_r in Hl.
  exists c, a. rewrite Hr. simpl. done.
Qed.




(** * Token clamping: proofs *)




Lemma In_log_calls e l : is_call e = true -> In e l -> In e (calls l).
Proof. intros He Hin. apply filter_In. done. Qed.



(** * Retry budget, back-off and exhaustion: proofs *)

Section Retries.
Variable transport : Upstream.
Variable rq : Request.

Lemma all_retry_attempts k c n :
  (forall a, (a < n)%nat ->
     classify (transport (k + a)%nat (model c)) = VRetry) ->
  all_retry transport k (map (pair c) (seq 0 n)).
Proof.
  intros H j c' a Hl.
  apply list_lookup_fmap_Some in Hl as (i & Heq & Hi).
  injection Heq as -> ->.
  apply lookup_seq in Hi as [-> Hlt]. by apply H.
Qed.

(** The events of the attempts [a], [a+1], ... of one model up to its
    last one: a call, then a sleep and a call for each retry. *)
Lemma retry_events_attempts k c n : forall a,
  (a + S n = maxRetries c)%nat ->
  retry_events transport rq (k + a) (map (pair c) (seq a (S n)))
  = call_of rq c
    :: flat_map (fun i =>
                   [Sleep (delay_after (transport (k + i)%nat (model c)) i);
                    call_of rq c])
         (seq a n).
Proof.
  induction n as [|n IH]; intros a Ha.
  - simpl. replace (a <? maxRetries c - 1)%nat with false; [done |].
    symmetry. apply Nat.ltb_ge. lia.
  - rewrite <- (cons_seq (S n) a), <- (cons_seq n a).
    cbn [map retry_events flat_map app].
    replace (a <? maxRetries c - 1)%nat with true
      by (symmetry; apply Nat.ltb_lt; lia).
    replace (S (k + a)) with (k + S a)%nat by lia.
    rewrite (IH (S a)) by lia. done.
Qed.





End Retries.



(** C5. A model whose every attempt is retryable (an HTTP failure that
    allows fallback, or an exception of the transport) is called exactly
    [maxRetries] times; between two consecutive attempts the handler
    sleeps, [2^attempt * 1000] ms after an HTTP failure and 1000 ms
    after an exception, with [attempt] counted from 0; nothing is slept
    after the last attempt, and the outer loop goes on with the next
    model. *)
Theorem retry_budget_and_backoff :
  forall transport rq c rest le w,
    (1 <= maxRetries c)%nat ->
    (forall a, (a < maxRetries c)%nat ->
       classify (transport (length (calls (log w)) + a)%nat (model c))
       = VRetry) ->
    exists le' w',
      retryLoop transport rq c (maxRetries c) 0 (le, w) = inr (le', w')
      /\ log w'
         = log w
           ++ call_of rq c
              :: flat_map
                   (fun a =>
                      [Sleep (delay_after
                                (transport (length (calls (log w)) + a)%nat
                                   (model c)) a);
                       call_of rq c])
                   (seq 0 (maxRetries c - 1))
      /\ length (calls (log w'))
         = (length (calls (log w)) + maxRetries c)%nat
      /\ (forall a res tnow,
            transport (length (calls (log w)) + a)%nat (model c)
            = Responded res tnow ->
            delay_after (transport (length (calls (log w)) + a)%nat (model c))
              a
            = 2 ^ Z.of_nat a * 1000)
      /\ (forall a message,
            transport (length (calls (log w)) + a)%nat (model c)
            = Threw message ->
            delay_after (transport (length (calls (log w)) + a)%nat (model c))
              a
            = 1000)
      /\ modelLoop transport rq (c :: rest) (le, w)
         = modelLoop transport rq rest (le', w').
Proof.
  intros transport rq c rest le w Hpos Hall.
  pose proof (all_retry_attempts transport _ c _ Hall) as Hall'.
  pose proof (runSchedule_all_retry transport rq _ le w Hall') as Hrun.
  rewrite <- retryLoop_schedule in Hrun.
  eexists _, _. split; [exact Hrun |]. cbn [log].
  split.
  { f_equal. destruct (maxRetries c) as [|n] eqn:Hn; [lia |].
    pose proof (retry_events_attempts transport rq
                  (length (calls (log w))) c n O) as He.
    rewrite Nat.add_0_r in He. rewrite He by lia.
    by replace (S n - 1)%nat with n by lia. }
  split.
  { by rewrite calls_app, calls_retry_events, length_app, length_map,
      length_map, length_seq. }
  split; [by intros a res tnow -> |].
  split; [by intros a message -> |].
  cbn [modelLoop]. by rewrite Hrun.
Qed.


(** * Candidates and the order of attempts: proofs *)

Lemma attemptOnce_log transport rq c a le w :
  exists evs,
    log (world_of (attemptOnce transport rq c a (le, w)))
    = log w ++ call_of rq c :: evs.
Proof.
  unfold attemptOnce, callOpenRouter.
  destruct (transport (length (calls (log w))) (model c)) as [res tn | msg].
  - destruct (ok res && truthy_opt (data res)); [by exists [] |].
    destruct (negb (shouldFallback res)); [by exists [] |].
    destruct (Nat.ltb a (maxRetries c - 1)); simpl.
    + eexists. by rewrite <- app_assoc.
    + by exists [].
  - destruct (Nat.ltb a (maxRetries c - 1)); simpl.
    + eexists. by rewrite <- app_assoc.
    + by exists [].
Qed.

Lemma runSchedule_log transport rq l : forall le w,
  exists evs,
    log (world_of (runSchedule transport rq l (le, w))) = log w ++ evs.
Proof.
  induction l as [|[c a] l IH]; intros le w; cbn [runSchedule].
  - exists []. simpl. by rewrite app_nil_r.
  - destruct (attemptOnce_log transport rq c a le w) as [evs Hevs].
    destruct (attemptOnce transport rq c a (le, w)) as [r | [le' w1]].
    + by eexists.
    + destruct (IH le' w1) as [evs' Hevs']. simpl in Hevs.
      rewrite Hevs', Hevs. eexists. by rewrite <- app_assoc.
Qed.

(** The first attempt of a non-empty schedule is always made. *)
Lemma runSchedule_first_call transport rq c a l le w :
  exists evs,
    log (world_of (runSchedule transport rq ((c, a) :: l) (le, w)))
    = log w ++ call_of rq c :: evs.
Proof.
  cbn [runSchedule].
  destruct (attemptOnce_log transport rq c a le w) as [evs Hevs].
  destruct (attemptOnce transport rq c a (le, w)) as [r | [le' w1]].
  - by eexists.
  - destruct (runSchedule_log transport rq l le' w1) as [evs' Hevs'].
    simpl in Hevs. rewrite Hevs', Hevs. eexists. by rewrite <- app_assoc.
Qed.

Lemma attemptOnce_response transport rq c a s r w :
  attemptOnce transport rq c a s = inl (r, w) -> r <> NoHealthyModels.
Proof.
  destruct s as [le w0]. unfold attemptOnce.
  destruct (callOpenRouter _ _ _ _ _) as [[res | msg] w1].
  - destruct (ok res && truthy_opt (data res)); [by intros [= <- _] |].
    destruct (negb (shouldFallback res)); [by intros [= <- _] |].
    by destruct (Nat.ltb a (maxRetries c - 1)).
  - by destruct (Nat.ltb a (maxRetries c - 1)).
Qed.

Lemma runSchedule_response transport rq l : forall s r w,
  runSchedule transport rq l s = inl (r, w) -> r <> NoHealthyModels.
Proof.
  induction l as [|[c a] l IH]; intros s r w; cbn [runSchedule]; [done |].
  destruct (attemptOnce transport rq c a s) as [[r' w'] | s'] eqn:E.
  - intros [= <- <-]. by eapply attemptOnce_response.
  - apply IH.
Qed.

Lemma availableModels_other env mh now provider :
  strict_eq_str provider "auto" = false ->
  strict_eq_str provider "grok" = false ->
  strict_eq_str provider "deepseek" = false ->
  availableModels env mh now provider = MODEL_CONFIGS env.
Proof.
  intros H1 H2 H3. unfold availableModels. by rewrite H1, H2, H3.
Qed.

(** C3, as the code has it. A provider hint other than "auto", "grok"
    and "deepseek" keeps every model of the registry as a candidate, the
    health records not being looked at; a request with such a hint and a
    non-empty message list calls the first model of the registry and is
    not answered with the "no healthy models" error. That error, status
    503, is the answer before any upstream call whenever the candidate
    list is empty. *)
Theorem unknown_hint_keeps_every_model :
  forall env h0 now provider,
    strict_eq_str provider "auto" = false ->
    strict_eq_str provider "grok" = false ->
    strict_eq_str provider "deepseek" = false ->
    availableModels env h0 now provider = MODEL_CONFIGS env
    /\ (forall transport b msgs,
          provider_of b = provider ->
          messages_of b = JArr msgs -> msgs <> [] ->
          (POST env transport now (Some b) h0).1 <> NoHealthyModels
          /\ exists evs,
               log (POST env transport now (Some b) h0).2
               = call_of (request_of b msgs) (primary env) :: evs)
    /\ (forall transport b msgs,
          messages_of b = JArr msgs -> msgs <> [] ->
          availableModels env h0 now (provider_of b) = [] ->
          POST env transport now (Some b) h0
          = (NoHealthyModels, {| modelHealth := h0; log := [] |})
          /\ http_status (POST env transport now (Some b) h0).1 = 503).
Proof.
  intros env h0 now provider H1 H2 H3.
  pose proof (availableModels_other env h0 now provider H1 H2 H3) as Hav.
  split; [done |]. split.
  - intros transport b msgs Hp Hm Hne.
    assert (availableModels env h0 now (provider_of b) <> []) as Hcs
      by (by rewrite Hp, Hav).
    rewrite (POST_run _ _ _ _ _ _ Hm Hne Hcs), Hp, Hav. split.
    + destruct (runSchedule _ _ _ _) as [[r w] | [le w]] eqn:E; [| done].
      simpl. by eapply runSchedule_response.
    + rewrite world_of_finish.
      apply (runSchedule_first_call transport (request_of b msgs)
               (primary env) O _ None {| modelHealth := h0; log := [] |}).
  - intros transport b msgs Hm Hne Hcs.
    assert (POST env transport now (Some b) h0
            = (NoHealthyModels, {| modelHealth := h0; log := [] |})) as ->.
    { unfold POST. rewrite Hm, Hcs. destruct msgs; [done |].
      by destruct b. }
    done.
Qed.




(** * The theorems at sample requests *)

Lemma isHealthy_dual_condition_witness :
  ~ In tertiary (availableModels env0 health_stale clock0 (JStr "auto"))
  /\ In tertiary (availableModels env0 health_recent clock0 (JStr "auto")).
Proof.
  split.
  - destruct (isHealthy_dual_condition env0 health_stale clock0 tertiary)
      as (_ & _ & H & _).
    apply (H (streak 4 (clock0 - 600000)));
      [do 2 right; left; reflexivity | vm_compute; reflexivity
       | reflexivity | reflexivity].
  - destruct (isHealthy_dual_condition env0 health_recent clock0 tertiary)
      as (_ & _ & _ & H).
    apply (H (streak 4 (clock0 - 60000)));
      [do 2 right; left; reflexivity | vm_compute; reflexivity
       | reflexivity | reflexivity].
Defined.





Lemma all_retry_too_many_requests k l :
  all_retry (always too_many_requests) k l.
Proof. intros j c a _. reflexivity. Qed.



Lemma unknown_hint_keeps_every_model_witness :
  availableModels env0 health_stale clock0 (JStr "openai")
  = MODEL_CONFIGS env0
  /\ (POST env0 (always completion) clock0 (Some body_openai) health_stale).1
     <> NoHealthyModels
  /\ exists evs,
       log (POST env0 (always completion) clock0 (Some body_openai)
              health_stale).2
       = call_of (request_of body_openai [user_message]) (primary env0)
         :: evs.
Proof.
  destruct (unknown_hint_keeps_every_model env0 health_stale clock0
              (JStr "openai") eq_refl eq_refl eq_refl) as (Hav & Hrun & _).
  split; [exact Hav |].
  apply (Hrun (always completion) body_openai [user_message]);
    [reflexivity | reflexivity | discriminate].
Defined.

(** C3 as stated fails: the hint "openai" is none of the known ones, yet
    the three models stay candidates and the first one is called. *)
Lemma unknown_hint_no_candidates_counterexample :
  strict_eq_str (provider_of body_openai) "auto" = false
  /\ strict_eq_str (provider_of body_openai) "grok" = false
  /\ strict_eq_str (provider_of body_openai) "deepseek" = false
  /\ availableModels env0 ∅ clock0 (provider_of body_openai) <> []
  /\ (POST env0 (always completion) clock0 (Some body_openai) ∅).1
     = Success (model (primary env0)) 850 1 (JObj [("id", JStr "gen-1")])
  /\ length (calls (log (POST env0 (always completion) clock0
                           (Some body_openai) ∅).2)) = 1%nat.
Proof.
  repeat split; try reflexivity; try discriminate; vm_compute; reflexivity.
Qed.

Lemma retry_budget_and_backoff_witness :
  (exists le' w',
     retryLoop (always too_many_requests)
       (request_of body_hi [user_message]) (secondary env0) 3 0
       (None, fresh_world) = inr (le', w')
     /\ log w'
        = [call_of (request_of body_hi [user_message]) (secondary env0);
           Sleep 1000;
           call_of (request_of body_hi [user_message]) (secondary env0);
           Sleep 2000;
           call_of (request_of body_hi [user_message]) (secondary env0)]
     /\ length (calls (log w')) = 3%nat)
  /\ (exists le' w',
        retryLoop flaky_network (request_of body_hi [user_message])
          (secondary env0) 3 0 (None, fresh_world) = inr (le', w')
        /\ log w'
           = [call_of (request_of body_hi [user_message]) (secondary env0);
              Sleep 1000;
              call_of (request_of body_hi [user_message]) (secondary env0);
              Sleep 1000;
              call_of (request_of body_hi [user_message]) (secondary env0)]
        /\ length (calls (log w')) = 3%nat).
Proof.
  split.
  - destruct (retry_budget_and_backoff (always too_many_requests)
                (request_of body_hi [user_message]) (secondary env0)
                [tertiary] None fresh_world)
      as (le' & w' & Hrun & Hlog & Hn & _).
    + simpl. lia.
    + intros a Ha. reflexivity.
    + exists le', w'. split; [exact Hrun |]. split; [exact Hlog |]. exact Hn.
  - destruct (retry_budget_and_backoff flaky_network
                (request_of body_hi [user_message]) (secondary env0)
                [tertiary] None fresh_world)
      as (le' & w' & Hrun & Hlog & Hn & _).
    + simpl. lia.
    + intros a Ha. simpl in Ha.
      destruct a as [|[|[|a]]];
        [reflexivity | reflexivity | reflexivity | lia].
    + exists le', w'. split; [exact Hrun |]. split; [exact Hlog |]. exact Hn.
Defined.


(** * More on the handler

    The run up to one of its calls: the attempt the call belongs to, the
    state the attempt started from, and what is left to run after it. *)
Lemma runSchedule_at transport rq l : forall le w k m p tm,
  calls (log (world_of (runSchedule transport rq l (le, w)))) !! k
  = Some (Call m p tm) ->
  (length (calls (log w)) <= k)%nat ->
  exists c a le1 w1,
    l !! (k - length (calls (log w)))%nat = Some (c, a)
    /\ call_of rq c = Call m p tm
    /\ length (calls (log w1)) = k
    /\ (k = length (calls (log w)) -> le1 = le /\ w1 = w)
    /\ runSchedule transport rq l (le, w)
       = match attemptOnce transport rq c a (le1, w1) with
         | inl r => inl r
         | inr s' =>
             runSchedule transport rq
               (drop (S (k - length (calls (log w)))) l) s'
         end.
Proof.
  induction l as [|[c a] l IH]; intros le w k m p tm Hk Hle.
  - simpl in Hk. apply lookup_lt_Some in Hk. lia.
  - destruct (decide (k = length (calls (log w)))) as [-> | Hne].
    + destruct (runSchedule_calls transport rq ((c, a) :: l) le w) as [j Hj].
      rewrite Hj in Hk. destruct j as [|j].
      { simpl in Hk. rewrite app_nil_r in Hk.
        apply lookup_lt_Some in Hk. lia. }
      simpl in Hk. rewrite lookup_app_r in Hk by lia.
      rewrite Nat.sub_diag in Hk. simpl in Hk.
      injection Hk as Hm Hp Ht. subst m p tm. exists c, a, le, w. rewrite Nat.sub_diag.
      repeat split.
    + cbn [runSchedule] in Hk |- *.
      pose proof (attemptOnce_calls transport rq c a le w) as Hc.
      destruct (attemptOnce transport rq c a (le, w))
        as [[r w1] | [le' w1]] eqn:E; simpl in Hc, Hk.
      * rewrite Hc in Hk. apply lookup_lt_Some in Hk.
        rewrite length_app in Hk. simpl in Hk. lia.
      * assert (length (calls (log w1)) = S (length (calls (log w))))
          as Hlen by (rewrite Hc, length_app; simpl; lia).
        destruct (IH le' w1 k m p tm Hk ltac:(lia))
          as (c' & a' & le1 & w2 & Hl & Hcall & Hn & _ & Hr).
        rewrite Hlen in Hl, Hr.
        replace (k - length (calls (log w)))%nat
          with (S (k - S (length (calls (log w)))))%nat by lia.
        exists c', a', le1, w2. done.
Qed.

Lemma classify_retry_iff f : classify f = VRetry <-> retryable_answer f.
Proof.
  destruct f as [res tn | msg]; simpl; [| done].
  unfold shouldFallback.
  destruct (ok res) eqn:Hok; simpl.
  - rewrite (ok_not_fallback _ Hok). simpl.
    destruct (truthy_opt (data res)) eqn:Ht; simpl.
    + split; [discriminate | intros [? _]; discriminate].
    + assert (truthy_opt (error_code (data res)) = false) as ->.
      { unfold error_code, opt_chain.
        destruct (data res) as [d|]; [| done].
        simpl in Ht. destruct d; try done; simpl in Ht; try discriminate. }
      simpl. split; [discriminate | intros [? _]; discriminate].
  - destruct (FALLBACK_STATUS_has (status res)); simpl.
    + split; [intros _; split; [done | by left] | done].
    + destruct (codes_include (error_code (data res))) eqn:Hc.
      * assert (truthy_opt (error_code (data res)) = true) as ->.
        { unfold codes_include in Hc.
          destruct (error_code (data res)) as [[| | |s| |]|]; try done.
          simpl. destruct (String.eqb_spec s ""); [subst; done | done]. }
        simpl. split; [intros _; split; [done | by right] | done].
      * rewrite andb_false_r. simpl.
        split; [discriminate |]. by intros [_ [? | ?]].
Qed.

Lemma call_of_inv rq c m p tm :
  call_of rq c = Call m p tm ->
  model c = m /\ p = basePayload rq /\ tm = timeout rq.
Proof. unfold call_of. intros H. by injection H as <- <- <-. Qed.

Lemma POST_at env transport now b h0 k m p tm :
  calls (log (POST env transport now (Some b) h0).2) !! k
  = Some (Call m p tm) ->
  exists msgs c a le1 w1,
    messages_of b = JArr msgs /\ msgs <> []
    /\ schedule (availableModels env h0 now (provider_of b)) !! k
       = Some (c, a)
    /\ call_of (request_of b msgs) c = Call m p tm
    /\ length (calls (log w1)) = k
    /\ (k = 0%nat -> le1 = None /\ w1 = {| modelHealth := h0; log := [] |})
    /\ POST env transport now (Some b) h0
       = finish
           match attemptOnce transport (request_of b msgs) c a (le1, w1) with
           | inl r => inl r
           | inr s' =>
               runSchedule transport (request_of b msgs)
                 (drop (S k)
                    (schedule (availableModels env h0 now (provider_of b))))
                 s'
           end.
Proof.
  intros Hk.
  destruct (POST_cases env transport now (Some b) h0)
    as [Hw | (b' & msgs & Hb & Hm & Hne & Hcs)].
  { rewrite Hw in Hk. done. }
  injection Hb as <-.
  rewrite (POST_run _ _ _ _ _ _ Hm Hne Hcs) in Hk |- *.
  rewrite world_of_finish in Hk.
  destruct (runSchedule_at transport (request_of b msgs) _ _ _ _ _ _ _ Hk
              ltac:(simpl; lia))
    as (c & a & le1 & w1 & Hl & Hcall & Hn & H0 & Hr).
  simpl in Hl, Hr, H0. rewrite Nat.sub_0_r in Hl, Hr.
  exists msgs, c, a, le1, w1. rewrite Hr. done.
Qed.


(** X2. A call answered retryably (an exception, or an HTTP failure
    with a fallback status or a retryable error code, whatever its
    status) never ends the request by itself: the next attempt of the
    schedule is called, with the same payload; if there is none the
    answer is the aggregate failure holding the error of that call. *)
Theorem retryable_answer_goes_on :
  forall env transport now b h0 k m p tm,
    calls (log (POST env transport now (Some b) h0).2) !! k
    = Some (Call m p tm) ->
    retryable_answer (transport k m) ->
    (forall c' a',
       schedule (availableModels env h0 now (provider_of b)) !! S k
       = Some (c', a') ->
       calls (log (POST env transport now (Some b) h0).2) !! S k
       = Some (Call (model c') p tm))
    /\ (length (schedule (availableModels env h0 now (provider_of b))) = S k ->
        exists c a,
          schedule (availableModels env h0 now (provider_of b)) !! k
          = Some (c, a)
          /\ (POST env transport now (Some b) h0).1
             = AllProvidersFailed (Some (error_of c a (transport k m)))
                 (modelHealth (POST env transport now (Some b) h0).2)).
Proof.
  intros env transport now b h0 k m p tm Hk Hf.
  destruct (POST_at _ _ _ _ _ _ _ _ _ Hk)
    as (msgs & c & a & le1 & w1 & Hm & Hne & Hl & Hcall & Hn & _ & Hr).
  destruct (call_of_inv _ _ _ _ _ Hcall) as (Hmod & Hp & Ht).
  apply classify_retry_iff in Hf. rewrite <- Hn, <- Hmod in Hf.
  rewrite (attemptOnce_retry _ _ _ _ _ _ Hf) in Hr.
  assert (length (calls (log (backed_off transport (request_of b msgs)
                                c a w1))) = S k) as Hlen.
  { rewrite calls_backed_off, length_app. simpl. lia. }
  split.
  - intros c' a' Hnext. rewrite Hr, world_of_finish.
    rewrite (drop_S _ _ _ Hnext).
    destruct (runSchedule_first_call transport (request_of b msgs) c' a'
                (drop (S (S k))
                   (schedule (availableModels env h0 now (provider_of b))))
                (Some (error_of c a
                         (transport (length (calls (log w1))) (model c))))
                (backed_off transport (request_of b msgs) c a w1))
      as [evs Hevs].
    rewrite Hevs, calls_app. rewrite lookup_app_r by lia.
    rewrite Hlen, Nat.sub_diag. simpl. unfold call_of.
    by rewrite Hp, Ht.
  - intros Hlast. exists c, a. split; [done |].
    rewrite Hr, drop_ge by lia. cbn [runSchedule finish fst snd].
    by rewrite Hn, Hmod.
Qed.

(** X3. A 2xx answer whose body parses to a falsy value ([null],
    [false], [0] or the empty string) is no success either: the request
    ends with the single-attempt error carrying the raw text and the
    upstream status, and nothing is tried after it. *)
Theorem falsy_body_is_fatal :
  forall env transport now b h0 k m p tm res tnow d,
    calls (log (POST env transport now (Some b) h0).2) !! k
    = Some (Call m p tm) ->
    transport k m = Responded res tnow ->
    ok res = true ->
    data res = Some d ->
    truthy d = false ->
    exists c a,
      schedule (availableModels env h0 now (provider_of b)) !! k
      = Some (c, a)
      /\ model c = m
      /\ (POST env transport now (Some b) h0).1
         = ProviderError m (status res) (a + 1) (JStr (raw res))
      /\ length (calls (log (POST env transport now (Some b) h0).2)) = S k
      /\ last (log (POST env transport now (Some b) h0).2)
         = Some (Call m p tm).
Proof.
  intros env transport now b h0 k m p tm res tnow d Hk Hf Hok Hd Ht.
  assert (classify (Responded res tnow) = VFatal) as Hv.
  { destruct (classify (Responded res tnow)) eqn:E; [| done |].
    - unfold classify in E. rewrite Hok, Hd in E. simpl in E.
      rewrite Ht in E. destruct (negb (shouldFallback res)); discriminate.
    - apply classify_retry_iff in E. simpl in E. destruct E as [E _].
      congruence. }
  destruct (POST_fatal_at _ _ _ _ _ _ _ _ _ _ _ Hk Hf Hv)
    as (c & a & Hl & Hm & Hr & Hn & Hlast).
  exists c, a. rewrite Hr. unfold details_of. rewrite Hd, Ht. done.
Qed.

Lemma attemptOnce_reports transport rq c a le w :
  match attemptOnce transport rq c a (le, w) with
  | inl (r, _) => attempt_of_response r = Some (model c, (a + 1)%nat)
  | inr (le', _) =>
      exists e, le' = Some e /\ error_model e = model c
                /\ error_attempt e = (a + 1)%nat
  end.
Proof.
  destruct (classify (transport (length (calls (log w))) (model c))) eqn:Hc.
  - destruct (transport (length (calls (log w))) (model c))
      as [res tn | msg] eqn:Hf; [| discriminate].
    by rewrite (attemptOnce_success _ _ _ _ _ _ _ _ Hf Hc).
  - destruct (transport (length (calls (log w))) (model c))
      as [res tn | msg] eqn:Hf; [| discriminate].
    by rewrite (attemptOnce_fatal _ _ _ _ _ _ _ _ Hf Hc).
  - rewrite (attemptOnce_retry _ _ _ _ _ _ Hc). eexists. split; [done |].
    by destruct (transport _ _).
Qed.


Lemma In_schedule c a cs :
  In (c, a) (schedule cs) <-> In c cs /\ (a < maxRetries c)%nat.
Proof.
  unfold schedule. rewrite in_flat_map. split.
  - intros (c' & Hin & Hp). apply in_map_iff in Hp as (a' & Heq & Ha).
    injection Heq as -> ->. apply in_seq in Ha. split; [done | lia].
  - intros [Hin Ha]. exists c. split; [done |]. apply in_map_iff.
    exists a. split; [done |]. apply in_seq. lia.
Qed.



(** The log of a run: the events of the retryable attempts it went
    through, then the call of the attempt that ended it, if one did. *)
Lemma runSchedule_log_shape transport rq l : forall le w,
  exists j stop,
    log (world_of (runSchedule transport rq l (le, w)))
    = log w
      ++ retry_events transport rq (length (calls (log w))) (take j l)
      ++ stop
    /\ (stop = [] \/ exists c a, l !! j = Some (c, a)
                                /\ stop = [call_of rq c]).
Proof.
  induction l as [|[c a] l IH]; intros le w; cbn [runSchedule].
  - exists O, []. simpl. rewrite app_nil_r. split; [done | by left].
  - destruct (classify (transport (length (calls (log w))) (model c)))
      eqn:Hc.
    + destruct (transport (length (calls (log w))) (model c))
        as [res tn | msg] eqn:Hf; [| discriminate].
      rewrite (attemptOnce_success _ _ _ _ _ _ _ _ Hf Hc).
      exists O, [call_of rq c]. split; [done |]. right. by exists c, a.
    + destruct (transport (length (calls (log w))) (model c))
        as [res tn | msg] eqn:Hf; [| discriminate].
      rewrite (attemptOnce_fatal _ _ _ _ _ _ _ _ Hf Hc).
      exists O, [call_of rq c]. split; [done |]. right. by exists c, a.
    + rewrite (attemptOnce_retry _ _ _ _ _ _ Hc).
      destruct (IH (Some (error_of c a
                            (transport (length (calls (log w))) (model c))))
                  (backed_off transport rq c a w))
        as (j & stop & Hlog & Hstop).
      exists (S j), stop. split; [| done].
      rewrite Hlog, calls_backed_off, length_app. simpl.
      rewrite Nat.add_1_r.
      unfold backed_off, called, setTimeout, emit.
      destruct (Nat.ltb a (maxRetries c - 1)); simpl;
        by rewrite <- !app_assoc.
Qed.

Lemma total_sleep_app l1 l2 :
  total_sleep (l1 ++ l2) = total_sleep l1 + total_sleep l2.
Proof.
  induction l1 as [|e l1 IH]; simpl; [done |].
  destruct e; rewrite IH; lia.
Qed.

Lemma delay_after_bounds f a : 0 <= delay_after f a <= 2 ^ Z.of_nat a * 1000.
Proof.
  assert (1 <= 2 ^ Z.of_nat a) by (apply Z.pow_le_mono_r with (b := 0); lia).
  destruct f; simpl; lia.
Qed.

Lemma total_sleep_retry_events transport rq l : forall k,
  0 <= total_sleep (retry_events transport rq k l) <= sleep_budget l.
Proof.
  induction l as [|[c a] l IH]; intros k; simpl; [lia |].
  rewrite total_sleep_app. specialize (IH (S k)).
  pose proof (delay_after_bounds (transport k (model c)) a).
  destruct (Nat.ltb a (maxRetries c - 1)); simpl; lia.
Qed.

Lemma sleep_budget_nonneg l : 0 <= sleep_budget l.
Proof.
  induction l as [|[c a] l IH]; simpl; [lia |].
  assert (0 <= 2 ^ Z.of_nat a) by (apply Z.pow_nonneg; lia).
  destruct (Nat.ltb a (maxRetries c - 1)); lia.
Qed.

Lemma sleep_budget_take j l : sleep_budget (take j l) <= sleep_budget l.
Proof.
  revert j. induction l as [|[c a] l IH]; intros [|j]; simpl; try lia.
  - pose proof (sleep_budget_nonneg l).
    assert (0 <= 2 ^ Z.of_nat a) by (apply Z.pow_nonneg; lia).
    destruct (Nat.ltb a (maxRetries c - 1)); lia.
  - specialize (IH j). lia.
Qed.

Lemma availableModels_budget env mh now provider :
  (length (schedule (availableModels env mh now provider)) <= 6)%nat
  /\ sleep_budget (schedule (availableModels env mh now provider)) <= 4000.
Proof.
  unfold availableModels, getHealthyModels, MODEL_CONFIGS.
  cbn [List.filter].
  repeat match goal with
         | |- context [if ?x then _ else _] => destruct x
         end;
    (split; [simpl; lia | vm_compute; discriminate]).
Qed.

(** X5. A request costs at most 6 upstream calls and at most 4000 ms of
    back-off sleep, whatever the body, the health map and the upstream
    do. *)
Theorem request_effort_bounded :
  forall env transport now body h0,
    (length (calls (log (POST env transport now body h0).2)) <= 6)%nat
    /\ 0 <= total_sleep (log (POST env transport now body h0).2) <= 4000.
Proof.
  intros env transport now body h0.
  destruct (POST_cases env transport now body h0)
    as [Hw | (b & msgs & -> & Hm & Hne & Hcs)].
  { rewrite Hw. simpl. lia. }
  rewrite (POST_run _ _ _ _ _ _ Hm Hne Hcs), world_of_finish.
  destruct (availableModels_budget env h0 now (provider_of b)) as [Hn Hs].
  split.
  - destruct (runSchedule_calls transport (request_of b msgs)
                (schedule (availableModels env h0 now (provider_of b)))
                None {| modelHealth := h0; log := [] |}) as [j Hj].
    rewrite Hj. simpl. rewrite length_map, length_take. lia.
  - destruct (runSchedule_log_shape transport (request_of b msgs)
                (schedule (availableModels env h0 now (provider_of b)))
                None {| modelHealth := h0; log := [] |})
      as (j & stop & Hlog & Hstop).
    rewrite Hlog. simpl. rewrite total_sleep_app.
    pose proof (total_sleep_retry_events transport (request_of b msgs)
                  (take j (schedule
                             (availableModels env h0 now (provider_of b))))
                  0%nat) as Hb.
    pose proof (sleep_budget_take j
                  (schedule (availableModels env h0 now (provider_of b)))).
    assert (total_sleep stop = 0) as ->.
    { destruct Hstop as [-> | (c & a & _ & ->)]; done. }
    lia.
Qed.

Lemma POST_call_candidate env transport now b h0 m p tm :
  In (Call m p tm) (log (POST env transport now (Some b) h0).2) ->
  exists msgs c,
    messages_of b = JArr msgs
    /\ In c (availableModels env h0 now (provider_of b))
    /\ m = model c
    /\ p = basePayload (request_of b msgs)
    /\ tm = timeout (request_of b msgs).
Proof.
  intros Hin.
  apply (In_log_calls (Call m p tm) _ eq_refl) in Hin.
  apply list_elem_of_In, list_elem_of_lookup in Hin as [k Hk].
  destruct (POST_at _ _ _ _ _ _ _ _ _ Hk)
    as (msgs & c & a & le1 & w1 & Hm & Hne & Hl & Hcall & Hn & _ & Hr).
  destruct (call_of_inv _ _ _ _ _ Hcall) as (Hmod & -> & ->).
  exists msgs, c. split; [done |]. split; [| done].
  assert (In (c, a) (schedule (availableModels env h0 now (provider_of b))))
    as Hin by (apply list_elem_of_In, list_elem_of_lookup; eauto).
  by apply In_schedule in Hin as [Hin _].
Qed.

(** X6. Every upstream call of a request goes to a candidate of that
    request and carries the request as it came: the message list
    untouched, [temperature] and [top_p] when they are numbers and not
    otherwise, and the [timeout] field or its default. *)
Theorem calls_carry_the_request :
  forall env transport now b h0 m p tm,
    In (Call m p tm) (log (POST env transport now (Some b) h0).2) ->
    exists msgs c,
      messages_of b = JArr msgs
      /\ In c (availableModels env h0 now (provider_of b))
      /\ m = model c
      /\ messages p = msgs
      /\ temperature p = is_number (get_prop b "temperature")
      /\ top_p p = is_number (get_prop b "top_p")
      /\ tm = timeout_of b.
Proof.
  intros env transport now b h0 m p tm Hin.
  destruct (POST_call_candidate _ _ _ _ _ _ _ _ Hin)
    as (msgs & c & Hm & Hc & -> & -> & ->).
  by exists msgs, c.
Qed.

(** * The health map across a request *)

Lemma attemptOnce_health transport rq c a le w :
  modelHealth (world_of (attemptOnce transport rq c a (le, w)))
  = health_after (model c) (transport (length (calls (log w))) (model c))
      (modelHealth w).
Proof.
  unfold attemptOnce, callOpenRouter.
  destruct (transport (length (calls (log w))) (model c)) as [res tn | msg].
  - destruct (ok res && truthy_opt (data res)); [done |].
    destruct (negb (shouldFallback res)); [done |].
    by destruct (Nat.ltb a (maxRetries c - 1)).
  - by destruct (Nat.ltb a (maxRetries c - 1)).
Qed.

Lemma health_after_other m m' f (mh : gmap string Health) :
  m <> m' -> health_after m f mh !! m' = mh !! m'.
Proof.
  intros Hne. destruct f; simpl; by apply updateModelHealth_lookup_ne.
Qed.

Lemma runSchedule_health_other transport rq m l : forall le w,
  (forall c a, In (c, a) l -> model c <> m) ->
  modelHealth (world_of (runSchedule transport rq l (le, w))) !! m
  = modelHealth w !! m.
Proof.
  induction l as [|[c a] l IH]; intros le w Hl; cbn [runSchedule]; [done |].
  pose proof (attemptOnce_health transport rq c a le w) as Hh.
  assert (model c <> m) as Hc by (apply (Hl c a); by left).
  destruct (attemptOnce transport rq c a (le, w)) as [[r w1] | [le' w1]];
    simpl in Hh.
  - simpl. rewrite Hh. by apply health_after_other.
  - rewrite IH by (intros c' a' Hin; apply (Hl c' a'); by right).
    rewrite Hh. by apply health_after_other.
Qed.

Lemma POST_health_other env transport now b h0 m :
  (forall c, In c (availableModels env h0 now (provider_of b)) ->
             model c <> m) ->
  modelHealth (POST env transport now (Some b) h0).2 !! m = h0 !! m.
Proof.
  intros Hc.
  destruct (POST_cases env transport now (Some b) h0)
    as [Hw | (b' & msgs & Hb & Hm & Hne & Hcs)].
  { by rewrite Hw. }
  injection Hb as <-.
  rewrite (POST_run _ _ _ _ _ _ Hm Hne Hcs), world_of_finish.
  rewrite runSchedule_health_other; [done |].
  intros c a Hin. apply In_schedule in Hin as [Hin _]. by apply Hc.
Qed.

(** X7. A request touches the health records of its candidates only:
    the record of any model that no candidate names is, after the
    request, what it was before. *)
Theorem other_models_keep_their_health :
  forall env transport now b h0 m,
    (forall c, In c (availableModels env h0 now (provider_of b)) ->
               model c <> m) ->
    modelHealth (POST env transport now (Some b) h0).2 !! m = h0 !! m.
Proof.
  intros env transport now b h0 m Hc. by apply POST_health_other.
Qed.



Lemma classify_retry_failed m f (mh : gmap string Health) :
  classify f = VRetry ->
  health_after m f mh !! m
  = Some (update_record false None 0 (default fresh_health (mh !! m))).
Proof.
  intros Hc. destruct f as [res tn | msg]; simpl.
  - apply classify_retry_iff in Hc as [Hok _].
    rewrite updateModelHealth_lookup, Hok. done.
  - apply updateModelHealth_lookup.
Qed.

Lemma retry_health_account transport m l : forall k mh,
  all_retry transport k l ->
  failures_of (retry_health transport k l mh) m
  = failures_of mh m
    + Z.of_nat (length (List.filter (fun p => named m p.1) l))
  /\ lastSuccess_of (retry_health transport k l mh) m = lastSuccess_of mh m.
Proof.
  induction l as [|[c a] l IH]; intros k mh Hall; cbn [retry_health].
  - simpl. split; [lia | done].
  - apply all_retry_cons in Hall as [Hc Hall].
    destruct (IH (S k) (health_after (model c) (transport k (model c)) mh)
                Hall) as [IHf IHs].
    rewrite IHf, IHs. cbn [List.filter fst]. unfold named at 2.
    unfold failures_of, lastSuccess_of.
    destruct (String.eqb_spec (model c) m) as [<- | Hne].
    + rewrite (classify_retry_failed _ _ _ Hc). simpl length.
      simpl. split; [lia | done].
    + rewrite (health_after_other _ _ _ _ Hne). split; [lia | done].
Qed.

Lemma attempts_of_model m cs :
  length (List.filter (fun p => named m p.1) (schedule cs))
  = sum_maxRetries (List.filter (named m) cs).
Proof.
  induction cs as [|c cs IH]; [done |].
  unfold schedule in *. cbn [flat_map List.filter].
  rewrite List.filter_app, length_app, IH.
  assert (forall a n,
            length (List.filter (fun p : ModelConfig * nat => named m p.1)
                      (map (pair c) (seq a n)))
            = if named m c then n else 0%nat) as Hblock.
  { intros a n. revert a. induction n as [|n IHn]; intros a; simpl.
    - by destruct (named m c).
    - specialize (IHn (S a)). destruct (named m c); simpl; by rewrite IHn. }
  rewrite Hblock. by destruct (named m c).
Qed.

(** X9. Every retryable attempt is one recorded failure. When a request
    runs out of candidates with retryable answers only, the failure count
    of each model has grown by the [maxRetries] of the candidates that
    name it, and no [lastSuccess] has moved. *)
Theorem exhaustion_charges_each_model :
  forall env transport now b h0 msgs m,
    messages_of b = JArr msgs -> msgs <> [] ->
    availableModels env h0 now (provider_of b) <> [] ->
    all_retry transport 0
      (schedule (availableModels env h0 now (provider_of b))) ->
    failures_of (modelHealth (POST env transport now (Some b) h0).2) m
    = failures_of h0 m
      + Z.of_nat (sum_maxRetries
                    (List.filter (named m)
                       (availableModels env h0 now (provider_of b))))
    /\ lastSuccess_of (modelHealth (POST env transport now (Some b) h0).2) m
       = lastSuccess_of h0 m.
Proof.
  intros env transport now b h0 msgs m Hm Hne Hcs Hall.
  rewrite (POST_run _ _ _ _ _ _ Hm Hne Hcs).
  rewrite (runSchedule_all_retry transport (request_of b msgs) _ None
             {| modelHealth := h0; log := [] |} Hall).
  cbn [finish snd modelHealth log calls List.filter length].
  rewrite <- attempts_of_model.
  by apply retry_health_account.
Qed.

(** * More on the candidates *)

Lemma insert_by_priority_perm c l : Permutation (insert_by_priority c l) (c :: l).
Proof.
  induction l as [|d l IH]; simpl; [done |].
  destruct (Z.ltb 0 (priority c - priority d)); [| done].
  rewrite IH. apply perm_swap.
Qed.

Lemma insert_by_priority_sorted c l :
  Sorted (fun x y => priority x <= priority y) l ->
  Sorted (fun x y => priority x <= priority y) (insert_by_priority c l).
Proof.
  induction l as [|d l IH]; intros Hs; simpl.
  - by repeat constructor.
  - destruct (Z.ltb_spec 0 (priority c - priority d)).
    + apply Sorted_inv in Hs as [Hs Hd]. constructor; [by apply IH |].
      destruct l as [|e l]; simpl.
      * constructor. lia.
      * destruct (Z.ltb 0 (priority c - priority e)); constructor;
          [by apply HdRel_inv in Hd | lia].
    + constructor; [done |]. constructor. lia.
Qed.

Lemma insert_by_priority_stable p c l :
  List.filter (fun x => Z.eqb (priority x) p) (insert_by_priority c l)
  = List.filter (fun x => Z.eqb (priority x) p) (c :: l).
Proof.
  induction l as [|d l IH]; simpl; [done |].
  destruct (Z.ltb_spec 0 (priority c - priority d)); [| done].
  simpl. rewrite IH. simpl.
  destruct (Z.eqb_spec (priority c) p), (Z.eqb_spec (priority d) p);
    try done. lia.
Qed.

(** X10. The sort of [getHealthyModels] orders any list of models by
    ascending priority, keeps exactly its elements, and is stable:
    models of equal priority stay in the order they had. *)
Theorem sort_by_priority_sorts :
  forall l,
    Sorted (fun x y => priority x <= priority y) (sort_by_priority l)
    /\ Permutation (sort_by_priority l) l
    /\ forall p,
         List.filter (fun x => Z.eqb (priority x) p) (sort_by_priority l)
         = List.filter (fun x => Z.eqb (priority x) p) l.
Proof.
  induction l as [|c l (IHs & IHp & IHf)]; simpl.
  - split; [constructor |]. split; done.
  - split; [by apply insert_by_priority_sorted |]. split.
    + rewrite insert_by_priority_perm. by constructor.
    + intros p. rewrite insert_by_priority_stable. simpl.
      by rewrite IHf.
Qed.

(** X11. The registry being written in priority order, the sort of
    [getHealthyModels] moves nothing: under "auto" the candidates are
    the registry with the unhealthy models struck out, and all of it
    when no health record exists yet. *)
Theorem getHealthyModels_is_a_filter :
  forall env mh now,
    getHealthyModels env mh now
    = List.filter (isHealthy mh now) (MODEL_CONFIGS env)
    /\ getHealthyModels env ∅ now = MODEL_CONFIGS env.
Proof.
  intros env mh now. split.
  - unfold getHealthyModels, MODEL_CONFIGS. cbn [List.filter].
    destruct (isHealthy mh now (primary env)),
      (isHealthy mh now (secondary env)), (isHealthy mh now tertiary);
      reflexivity.
  - unfold getHealthyModels, MODEL_CONFIGS, isHealthy. cbn [List.filter].
    rewrite !lookup_empty. reflexivity.
Qed.

Lemma includes_tertiary :
  includes (model tertiary) "grok" = false
  /\ includes (model tertiary) "deepseek" = false.
Proof. split; reflexivity. Qed.

(** X12. With the hint "grok" (or "deepseek") the candidates are the
    models of the registry whose identifier contains that word, healthy
    or not; the third model, whose identifier is fixed, is never one of
    them. *)
Theorem named_hint_candidates :
  forall env mh now hint c,
    hint = "grok" \/ hint = "deepseek" ->
    (In c (availableModels env mh now (JStr hint))
     <-> In c (MODEL_CONFIGS env) /\ includes (model c) hint = true)
    /\ ~ In tertiary (availableModels env mh now (JStr hint)).
Proof.
  intros env mh now hint c Hh.
  assert (forall c',
            In c' (availableModels env mh now (JStr hint))
            <-> In c' (MODEL_CONFIGS env) /\ includes (model c') hint = true)
    as Hiff.
  { intros c'. destruct Hh as [-> | ->].
    - change (availableModels env mh now (JStr "grok"))
        with (List.filter (fun config => includes (model config) "grok")
                (MODEL_CONFIGS env)).
      apply filter_In.
    - change (availableModels env mh now (JStr "deepseek"))
        with (List.filter (fun config => includes (model config) "deepseek")
                (MODEL_CONFIGS env)).
      apply filter_In. }
  split; [apply Hiff |].
  rewrite Hiff. intros [_ Hi]. destruct includes_tertiary as [Hg Hd].
  destruct Hh as [-> | ->]; congruence.
Qed.

(** * How health moves *)

(** X13. One success readmits a model: right after a success recorded
    at time [t] the model passes the health filter at every time up to
    [t + 300000], however many failures it has. *)
Theorem success_readmits_for_five_minutes :
  forall (mh : gmap string Health) m rt t now c,
    model c = m ->
    now - t <= 300000 ->
    isHealthy (updateModelHealth m true rt t mh) now c = true.
Proof.
  intros mh m rt t now c <- Hnow. unfold isHealthy.
  rewrite updateModelHealth_lookup. simpl.
  destruct (Z.ltb_spec 300000 (now - t)); [lia |].
  by rewrite andb_false_r.
Qed.

Lemma failures_only_account m us : forall (mh : gmap string Health),
  (forall u, In u us -> u_model u = m -> u_success u = false) ->
  failures_of (recordOutcomes us mh) m
  = failures_of mh m
    + Z.of_nat (length (List.filter (fun u => String.eqb (u_model u) m) us))
  /\ lastSuccess_of (recordOutcomes us mh) m = lastSuccess_of mh m
  /\ (is_Some (mh !! m)
      \/ (0 < length (List.filter (fun u => String.eqb (u_model u) m) us))%nat
      -> is_Some (recordOutcomes us mh !! m)).
Proof.
  induction us as [|u us IH]; intros mh Hf.
  - simpl. split; [lia |]. split; [done |]. intros [H | H]; [done | lia].
  - change (recordOutcomes (u :: us) mh)
      with (recordOutcomes us (recordOutcome mh u)).
    destruct (IH (recordOutcome mh u)) as (IHf & IHs & IHe).
    { intros u' Hin. apply Hf. by right. }
    rewrite IHf, IHs. cbn [List.filter].
    destruct (String.eqb_spec (u_model u) m) as [Hm | Hne].
    + assert (recordOutcome mh u !! m
              = Some (update_record false (u_responseTime u) (u_now u)
                        (default fresh_health (mh !! m)))) as Hl.
      { unfold recordOutcome.
        rewrite Hm, (Hf u (or_introl eq_refl) Hm).
        apply updateModelHealth_lookup. }
      unfold failures_of, lastSuccess_of. rewrite Hl. simpl.
      split; [lia |]. split; [done |]. intros _. apply IHe. left.
      by rewrite Hl.
    + assert (recordOutcome mh u !! m = mh !! m) as Hl
        by (by apply updateModelHealth_lookup_ne).
      unfold failures_of, lastSuccess_of. rewrite Hl.
      split; [lia |]. split; [done |]. by rewrite Hl in IHe.
Qed.

(** X14. A model that has never succeeded is struck out for good after
    four failures: starting with no record, once at least four outcomes
    are recorded for it and none is a success, it fails the health filter
    at every time past 300000 ms of the clock. *)
Theorem never_succeeded_is_unhealthy :
  forall (mh : gmap string Health) us c now,
    mh !! model c = None ->
    (forall u, In u us -> u_model u = model c -> u_success u = false) ->
    (4 <= length (List.filter (fun u => String.eqb (u_model u) (model c)) us))%nat ->
    300000 < now ->
    isHealthy (recordOutcomes us mh) now c = false.
Proof.
  intros mh us c now Hnone Hf Hn Hnow.
  destruct (failures_only_account (model c) us mh Hf) as (Hfail & Hlast & He).
  destruct He as [h Hh]; [right; lia |].
  unfold failures_of, lastSuccess_of in Hfail, Hlast.
  rewrite Hh, Hnone in Hfail, Hlast. simpl in Hfail, Hlast.
  apply isHealthy_false_iff. exists h. split; [done |]. lia.
Qed.

Lemma isHealthy_later (mh : gmap string Health) now now' c :
  isHealthy mh now c = false -> now <= now' -> isHealthy mh now' c = false.
Proof.
  rewrite !isHealthy_false_iff. intros (h & Hl & Hf & Hn) Hle.
  exists h. split; [done |]. lia.
Qed.

Lemma isHealthy_same_record (mh mh' : gmap string Health) now c c' :
  model c = model c' -> mh !! model c = mh' !! model c ->
  isHealthy mh now c = isHealthy mh' now c'.
Proof. intros Hm Hl. unfold isHealthy. by rewrite <- Hm, Hl. Qed.

Lemma health_after_serving_cons out outs (mh : gmap string Health) :
  health_after_serving (out :: outs) mh
  = health_after_serving outs (modelHealth out.2).
Proof.
  unfold health_after_serving. destruct outs as [|o outs]; [done |].
  rewrite last_cons_cons.
  destruct (last (o :: outs)) eqn:E; [done |]. by apply last_None in E.
Qed.

(** What one "auto" request does to a model that fails the filter. *)
Lemma auto_request_skips_unhealthy env transport now b mh c :
  strict_eq_str (provider_of b) "auto" = true ->
  isHealthy mh now c = false ->
  modelHealth (POST env transport now (Some b) mh).2 !! model c
  = mh !! model c
  /\ forall m p tm,
       In (Call m p tm) (log (POST env transport now (Some b) mh).2) ->
       m <> model c.
Proof.
  intros Hauto Hun.
  assert (forall c', In c' (availableModels env mh now (provider_of b)) ->
                     model c' <> model c) as Hc.
  { intros c' Hin Heq. unfold availableModels in Hin. rewrite Hauto in Hin.
    apply In_getHealthyModels in Hin as [_ Hh].
    rewrite (isHealthy_same_record mh mh now c' c Heq eq_refl) in Hh.
    congruence. }
  split; [by apply POST_health_other |].
  intros m p tm Hin.
  destruct (POST_call_candidate _ _ _ _ _ _ _ _ Hin)
    as (msgs & c' & _ & Hc' & -> & _). by apply Hc.
Qed.

(** X15. Under "auto" an unhealthy model stays unhealthy. If a model
    fails the health filter at some time, then through any sequence of
    later requests that all carry the hint "auto" (or none) it is never
    called and its health record never changes, so it fails the filter
    at each of them: only a request with another hint can bring it
    back. *)
Theorem unhealthy_stays_out_under_auto :
  forall env reqs (mh : gmap string Health) c now0,
    isHealthy mh now0 c = false ->
    Forall (fun r => strict_eq_str (provider_of (in_body r)) "auto" = true
                     /\ now0 <= in_now r) reqs ->
    health_after_serving (serve env reqs mh) mh !! model c = mh !! model c
    /\ Forall (fun out => forall m p tm,
                 In (Call m p tm) (log out.2) -> m <> model c)
         (serve env reqs mh)
    /\ forall now, now0 <= now ->
         isHealthy (health_after_serving (serve env reqs mh) mh) now c = false.
Proof.
  intros env reqs. induction reqs as [|r reqs IH]; intros mh c now0 Hun Hall.
  - simpl. split; [done |]. split; [constructor |].
    intros now Hle. by eapply isHealthy_later.
  - apply Forall_cons in Hall as [[Hauto Hnow] Hall].
    cbn [serve]. rewrite health_after_serving_cons.
    set (out := POST env (in_transport r) (in_now r) (Some (in_body r)) mh).
    destruct (auto_request_skips_unhealthy env (in_transport r) (in_now r)
                (in_body r) mh c Hauto
                (isHealthy_later _ _ _ _ Hun Hnow)) as [Hh Hcalls].
    fold out in Hh, Hcalls.
    assert (isHealthy (modelHealth out.2) now0 c = false) as Hun'.
    { rewrite (isHealthy_same_record (modelHealth out.2) mh now0 c c
                 eq_refl Hh). done. }
    destruct (IH (modelHealth out.2) c now0 Hun' Hall) as (IH1 & IH2 & IH3).
    split; [by rewrite IH1 |]. split; [by constructor |]. exact IH3.
Qed.

Lemma getHealthyModels_none env (mh : gmap string Health) now :
  (forall c, In c (MODEL_CONFIGS env) -> isHealthy mh now c = false) ->
  getHealthyModels env mh now = [].
Proof.
  intros Hall. destruct (getHealthyModels env mh now) as [|c cs] eqn:E; [done |].
  assert (In c (getHealthyModels env mh now)) as Hin by (rewrite E; by left).
  apply In_getHealthyModels in Hin as [Hin Hh].
  rewrite (Hall c Hin) in Hh. discriminate.
Qed.

(** X16. Once every model of the registry is unhealthy, "auto" is
    locked out: each later request with the hint "auto" (or none) makes
    no upstream call and leaves the health map as it is, and is answered
    with the "no healthy models" error when its message list is
    non-empty; no sequence of such requests gets out of this. *)
Theorem all_unhealthy_locks_auto :
  forall env reqs (mh : gmap string Health) now0,
    (forall c, In c (MODEL_CONFIGS env) -> isHealthy mh now0 c = false) ->
    Forall (fun r => strict_eq_str (provider_of (in_body r)) "auto" = true
                     /\ now0 <= in_now r) reqs ->
    Forall2 (fun r out =>
               out.2 = {| modelHealth := mh; log := [] |}
               /\ (forall msgs, messages_of (in_body r) = JArr msgs ->
                                msgs <> [] -> out.1 = NoHealthyModels))
      reqs (serve env reqs mh).
Proof.
  intros env reqs mh now0 Hun.
  induction reqs as [|r reqs IH]; intros Hall; [constructor |].
  apply Forall_cons in Hall as [[Hauto Hnow] Hall]. cbn [serve].
  assert (availableModels env mh (in_now r) (provider_of (in_body r)) = [])
    as Hcs.
  { unfold availableModels. rewrite Hauto. apply getHealthyModels_none.
    intros c Hin. eapply isHealthy_later; [by apply Hun | done]. }
  assert (POST env (in_transport r) (in_now r) (Some (in_body r)) mh
          = (match messages_of (in_body r) with
             | JArr (_ :: _) => NoHealthyModels
             | _ => match in_body r with
                    | JNull => ServerError
                    | _ => BadRequest
                    end
             end, {| modelHealth := mh; log := [] |})) as Hpost.
  { unfold POST. rewrite Hcs.
    destruct (in_body r) eqn:Eb; try done;
      destruct (messages_of _) as [| | | |[|m0 ms]|]; done. }
  rewrite Hpost. constructor.
  - split; [done |]. intros msgs Hm Hne. simpl. rewrite Hm.
    by destruct msgs.
  - simpl. by apply IH.
Qed.

(** * The running average of response times *)

Lemma update_record_avg_bounds success rt now h (B : Q) :
  (0 <= avgResponseTime h)%Q -> (avgResponseTime h <= B)%Q ->
  (forall t, rt = Some t -> 0 <= t /\ (inject_Z t <= B)%Q) ->
  (0 <= avgResponseTime (update_record success rt now h))%Q
  /\ (avgResponseTime (update_record success rt now h) <= B)%Q.
Proof.
  intros H0 HB Hrt. unfold update_record.
  destruct success; simpl; [| done].
  destruct rt as [t|]; [| done].
  destruct (Z.eqb t 0); [done |].
  destruct (Hrt t eq_refl) as [Ht HtB].
  assert (0 <= inject_Z t)%Q as Ht'.
  { change 0%Q with (inject_Z 0). by rewrite <- Zle_Qle. }
  split.
  - apply Qle_shift_div_l; [reflexivity | lra].
  - apply Qle_shift_div_r; [reflexivity | lra].
Qed.

(** X17. The running average stays within what was observed: if the
    averages on record and all recorded response times lie between 0
    and a bound, so does every average after any sequence of recorded
    outcomes. The first response time of a model enters at half its
    value, the average of a fresh record being 0. *)
Theorem avgResponseTime_bounded :
  forall (mh : gmap string Health) us (B : Q),
    (forall m h, mh !! m = Some h ->
       (0 <= avgResponseTime h)%Q /\ (avgResponseTime h <= B)%Q) ->
    (0 <= B)%Q ->
    (forall u t, In u us -> u_responseTime u = Some t ->
       0 <= t /\ (inject_Z t <= B)%Q) ->
    (forall m h, recordOutcomes us mh !! m = Some h ->
       (0 <= avgResponseTime h)%Q /\ (avgResponseTime h <= B)%Q)
    /\ (forall m t now, mh !! m = None -> t <> 0 ->
          exists h, updateModelHealth m true (Some t) now mh !! m = Some h
                    /\ (avgResponseTime h == inject_Z t / 2)%Q).
Proof.
  intros mh us B Hmh HB Hus. split.
  - revert mh Hmh Hus. induction us as [|u us IH]; intros mh Hmh Hus.
    + exact Hmh.
    + change (recordOutcomes (u :: us) mh)
        with (recordOutcomes us (recordOutcome mh u)).
      apply IH; [| intros u' t Hin; apply Hus; by right].
      intros m h Hl. unfold recordOutcome in Hl.
      destruct (decide (u_model u = m)) as [<- | Hne].
      * rewrite updateModelHealth_lookup in Hl. injection Hl as <-.
        assert ((0 <= avgResponseTime (default fresh_health
                                         (mh !! u_model u)))%Q
                /\ (avgResponseTime (default fresh_health
                                       (mh !! u_model u)) <= B)%Q)
          as [H0 H1].
        { destruct (mh !! u_model u) as [h|] eqn:E; simpl;
            [by eapply Hmh | split; [lra | done]]. }
        apply update_record_avg_bounds; [done | done |].
        intros t Ht. apply (Hus u t); [by left | done].
      * rewrite updateModelHealth_lookup_ne in Hl by done. by eapply Hmh.
  - intros m t now Hnone Ht. eexists.
    rewrite updateModelHealth_lookup, Hnone. split; [done |]. simpl.
    destruct (Z.eqb_spec t 0); [done |]. field_simplify. reflexivity.
Qed.

(** * The further theorems at sample requests *)


Lemma retryable_answer_goes_on_witness :
  calls (log (POST env0 (always too_many_requests) clock0 (Some body_hi) ∅).2)
    !! 1%nat
  = Some (call_of (request_of body_hi [user_message]) (primary env0)).
Proof.
  destruct (retryable_answer_goes_on env0 (always too_many_requests) clock0
              body_hi ∅ 0%nat (model (primary env0))
              (basePayload (request_of body_hi [user_message]))
              (timeout_of body_hi)) as [Hnext _].
  - vm_compute; reflexivity.
  - split; [reflexivity | left; reflexivity].
  - apply (Hnext (primary env0) 1%nat). reflexivity.
Defined.

Lemma falsy_body_is_fatal_witness :
  exists c a,
    schedule (availableModels env0 ∅ clock0 (provider_of body_hi)) !! 0%nat
    = Some (c, a)
    /\ model c = model (primary env0)
    /\ (POST env0 (always null_body) clock0 (Some body_hi) ∅).1
       = ProviderError (model (primary env0)) 200 (a + 1) (JStr "null")
    /\ length (calls (log (POST env0 (always null_body) clock0
                             (Some body_hi) ∅).2)) = 1%nat
    /\ last (log (POST env0 (always null_body) clock0 (Some body_hi) ∅).2)
       = Some (call_of (request_of body_hi [user_message]) (primary env0)).
Proof.
  apply (falsy_body_is_fatal env0 (always null_body) clock0 body_hi ∅
           0%nat (model (primary env0))
           (basePayload (request_of body_hi [user_message]))
           (timeout_of body_hi) null_body clock0 JNull);
    vm_compute; reflexivity.
Defined.


Lemma calls_carry_the_request_witness :
  exists msgs c,
    messages_of body_hi = JArr msgs
    /\ In c (availableModels env0 ∅ clock0 (provider_of body_hi))
    /\ model (primary env0) = model c
    /\ messages (basePayload (request_of body_hi [user_message])) = msgs
    /\ temperature (basePayload (request_of body_hi [user_message]))
       = is_number (get_prop body_hi "temperature")
    /\ top_p (basePayload (request_of body_hi [user_message]))
       = is_number (get_prop body_hi "top_p")
    /\ timeout_of body_hi = timeout_of body_hi.
Proof.
  apply (calls_carry_the_request env0 (always completion) clock0 body_hi ∅).
  vm_compute. left. reflexivity.
Defined.

Lemma other_models_keep_their_health_witness :
  modelHealth (POST env0 (always too_many_requests) clock0 (Some body_grok)
                 health_stale).2 !! model tertiary
  = health_stale !! model tertiary.
Proof.
  apply (other_models_keep_their_health env0 (always too_many_requests)
           clock0 body_grok health_stale (model tertiary)).
  intros c Hin. vm_compute in Hin. destruct Hin as [<- | []]. discriminate.
Defined.


Lemma exhaustion_charges_each_model_witness :
  failures_of
    (modelHealth (POST env0 (always too_many_requests) clock0 (Some body_hi)
                    ∅).2) (model (secondary env0))
  = 3
  /\ lastSuccess_of
       (modelHealth (POST env0 (always too_many_requests) clock0
                       (Some body_hi) ∅).2) (model (secondary env0))
     = 0.
Proof.
  destruct (exhaustion_charges_each_model env0 (always too_many_requests)
              clock0 body_hi ∅ [user_message] (model (secondary env0)))
    as [Hf Hs];
    [reflexivity | discriminate | discriminate
     | apply all_retry_too_many_requests |].
  split; [exact Hf | exact Hs].
Defined.

Lemma named_hint_candidates_witness :
  (In (primary env0) (availableModels env0 health_all_stale clock0 (JStr "grok"))
   <-> In (primary env0) (MODEL_CONFIGS env0)
       /\ includes (model (primary env0)) "grok" = true)
  /\ ~ In tertiary (availableModels env0 health_all_stale clock0 (JStr "grok")).
Proof.
  apply (named_hint_candidates env0 health_all_stale clock0 "grok"
           (primary env0)).
  left. reflexivity.
Defined.

Lemma success_readmits_for_five_minutes_witness :
  isHealthy (updateModelHealth (model tertiary) true (Some 40) clock0
               health_stale) (clock0 + 300000) tertiary = true.
Proof.
  apply (success_readmits_for_five_minutes health_stale (model tertiary)
           (Some 40) clock0 (clock0 + 300000) tertiary);
    [reflexivity | vm_compute; discriminate].
Defined.

Lemma never_succeeded_is_unhealthy_witness :
  isHealthy (recordOutcomes [a_failure; a_failure; a_failure; a_failure] ∅)
    300001 tertiary = false.
Proof.
  apply (never_succeeded_is_unhealthy ∅
           [a_failure; a_failure; a_failure; a_failure] tertiary 300001).
  - reflexivity.
  - intros u Hin _. simpl in Hin.
    destruct Hin as [<- | [<- | [<- | [<- | []]]]]; reflexivity.
  - vm_compute. lia.
  - reflexivity.
Defined.

Lemma unhealthy_stays_out_under_auto_witness :
  health_after_serving (serve env0 [auto_request; auto_request] health_stale)
    health_stale !! model tertiary
  = health_stale !! model tertiary
  /\ Forall (fun out => forall m p tm,
               In (Call m p tm) (log out.2) -> m <> model tertiary)
       (serve env0 [auto_request; auto_request] health_stale)
  /\ forall now, clock0 <= now ->
       isHealthy
         (health_after_serving
            (serve env0 [auto_request; auto_request] health_stale)
            health_stale) now tertiary = false.
Proof.
  apply (unhealthy_stays_out_under_auto env0 [auto_request; auto_request]
           health_stale tertiary clock0).
  - vm_compute; reflexivity.
  - repeat constructor; vm_compute; discriminate.
Defined.

Lemma all_unhealthy_locks_auto_witness :
  Forall2 (fun r out =>
             out.2 = {| modelHealth := health_all_stale; log := [] |}
             /\ (forall msgs, messages_of (in_body r) = JArr msgs ->
                              msgs <> [] -> out.1 = NoHealthyModels))
    [auto_request; auto_request]
    (serve env0 [auto_request; auto_request] health_all_stale).
Proof.
  apply (all_unhealthy_locks_auto env0 [auto_request; auto_request]
           health_all_stale clock0).
  - intros c Hin. simpl in Hin.
    destruct Hin as [<- | [<- | [<- | []]]]; vm_compute; reflexivity.
  - repeat constructor; vm_compute; discriminate.
Defined.

Lemma avgResponseTime_bounded_witness :
  exists h,
    recordOutcomes [a_success; a_success] ∅ !! model tertiary = Some h
    /\ (0 <= avgResponseTime h)%Q /\ (avgResponseTime h <= 120)%Q.
Proof.
  destruct (avgResponseTime_bounded ∅ [a_success; a_success] 120%Q)
    as [H _].
  - intros m h Hl. by rewrite lookup_empty in Hl.
  - discriminate.
  - intros u t Hin Ht. simpl in Hin.
    destruct Hin as [<- | [<- | []]]; injection Ht as <-;
      split; [lia | discriminate | lia | discriminate].
  - assert (recordOutcomes [a_success; a_success] ∅ !! model tertiary
            = Some (update_record true (Some 120) 1000
                      (update_record true (Some 120) 1000 fresh_health)))
      as E by (vm_compute; reflexivity).
    eexists. split; [exact E |]. exact (H _ _ E).
Defined.

(** * [safeJsonExtract]: proofs *)

Lemma from_first_split c s t :
  from_first c s = Some t ->
  exists pre rest,
    s = (pre ++ String c rest)%string /\ t = String c rest
    /\ occurs c pre = false.
Proof.
  revert t. induction s as [|a s IH]; intros t; simpl; [done |].
  destruct (Ascii.eqb_spec a c) as [-> | Hne].
  - intros [= <-]. by exists EmptyString, s.
  - intros Ht. destruct (IH t Ht) as (pre & rest & -> & -> & Hpre).
    exists (String a pre), rest. simpl.
    destruct (Ascii.eqb_spec a c); [done |]. by rewrite Hpre.
Qed.

Lemma from_first_none c s : from_first c s = None <-> occurs c s = false.
Proof.
  induction s as [|a s IH]; simpl; [done |].
  destruct (Ascii.eqb a c); simpl; [split; discriminate | done].
Qed.

Lemma from_first_app c pre rest :
  occurs c pre = false ->
  from_first c (pre ++ String c rest)%string = Some (String c rest).
Proof.
  induction pre as [|a pre IH]; simpl.
  - by rewrite Ascii.eqb_refl.
  - destruct (Ascii.eqb a c); simpl; [discriminate | done].
Qed.

Lemma upto_last_none c s : upto_last c s = None <-> occurs c s = false.
Proof.
  induction s as [|a s IH]; simpl; [done |].
  destruct (upto_last c s) as [p|].
  - split; [discriminate |]. intros H. apply orb_false_iff in H as [_ H].
    apply IH in H. discriminate.
  - destruct IH as [IH _]. rewrite (IH eq_refl), orb_false_r.
    destruct (Ascii.eqb a c); split; done.
Qed.

Lemma upto_last_split c s p :
  upto_last c s = Some p ->
  exists body post,
    s = (body ++ String c post)%string
    /\ p = (body ++ String c EmptyString)%string
    /\ occurs c post = false.
Proof.
  revert p. induction s as [|a s IH]; intros p; simpl; [done |].
  destruct (upto_last c s) as [q|] eqn:E.
  - intros [= <-]. destruct (IH q eq_refl) as (body & post & -> & -> & Hp).
    by exists (String a body), post.
  - destruct (Ascii.eqb_spec a c) as [-> | Hne]; [| done].
    intros [= <-]. exists EmptyString, s. by apply upto_last_none in E.
Qed.

Lemma upto_last_app c body post :
  occurs c post = false ->
  upto_last c (body ++ String c post)%string
  = Some (body ++ String c EmptyString)%string.
Proof.
  intros Hp. induction body as [|a body IH]; simpl.
  - apply upto_last_none in Hp. by rewrite Hp, Ascii.eqb_refl.
  - by rewrite IH.
Qed.

Lemma safeJsonExtract_shape s :
  (exists pre body post,
     s = (pre ++ String "{" (body ++ String "}" post))%string
     /\ occurs "{" pre = false /\ occurs "}" post = false
     /\ safeJsonExtract s = String "{" (body ++ String "}" EmptyString)%string)
  \/ (safeJsonExtract s = s
      /\ (occurs "{" s = false
          \/ exists pre rest,
               s = (pre ++ String "{" rest)%string
               /\ occurs "{" pre = false /\ occurs "}" rest = false)).
Proof.
  unfold safeJsonExtract.
  destruct (from_first "{" s) as [t|] eqn:Hf.
  - destruct (from_first_split _ _ _ Hf) as (pre & rest & -> & -> & Hpre).
    destruct (upto_last "}" rest) as [p|] eqn:Hu.
    + left. destruct (upto_last_split _ _ _ Hu) as (body & post & -> & -> & Hp).
      by exists pre, body, post.
    + right. split; [done |]. right. exists pre, rest.
      by apply upto_last_none in Hu.
  - right. split; [done |]. left. by apply from_first_none.
Qed.

(** X18. [safeJsonExtract] cuts a text down to its outermost braces:
    whatever stands before the first opening brace and after the last
    closing brace (a code fence, a remark of the model) is dropped, and
    everything between the two, inner braces included, is kept. *)
Theorem safeJsonExtract_strips_the_wrapping :
  forall pre body post,
    occurs "{" pre = false ->
    occurs "}" post = false ->
    safeJsonExtract (pre ++ String "{" (body ++ String "}" post))%string
    = String "{" (body ++ String "}" EmptyString)%string.
Proof.
  intros pre body post Hpre Hpost. unfold safeJsonExtract.
  rewrite (from_first_app _ _ _ Hpre), (upto_last_app _ _ _ Hpost). done.
Qed.

(** X19. What [safeJsonExtract] returns in every case: either the text
    has an opening brace with a closing brace somewhere after it, and
    the result is the part from the first opening brace to the last
    closing brace; or it has no such pair and is returned as it is. *)
Theorem safeJsonExtract_cases :
  forall s,
    (exists pre body post,
       s = (pre ++ String "{" (body ++ String "}" post))%string
       /\ occurs "{" pre = false /\ occurs "}" post = false
       /\ safeJsonExtract s
          = String "{" (body ++ String "}" EmptyString)%string)
    \/ (safeJsonExtract s = s
        /\ (occurs "{" s = false
            \/ exists pre rest,
                 s = (pre ++ String "{" rest)%string
                 /\ occurs "{" pre = false /\ occurs "}" rest = false)).
Proof. apply safeJsonExtract_shape. Qed.

(** X20. [safeJsonExtract] is idempotent: a text it has returned is
    returned unchanged when passed again. *)
Theorem safeJsonExtract_idempotent :
  forall s, safeJsonExtract (safeJsonExtract s) = safeJsonExtract s.
Proof.
  intros s.
  destruct (safeJsonExtract_shape s)
    as [(pre & body & post & _ & _ & _ & ->) | [Hs _]];
    [| by rewrite !Hs].
  unfold safeJsonExtract. cbn [from_first].
  replace (Ascii.eqb "{" "{") with true by reflexivity.
  by rewrite (upto_last_app "}" body EmptyString eq_refl).
Qed.

(** * The studio client: proofs *)

Lemma existsb_eqb_In id (f : list string) :
  existsb (String.eqb id) f = true <-> In id f.
Proof.
  rewrite existsb_exists. split.
  - intros (x & Hin & Heq). apply String.eqb_eq in Heq. by subst.
  - intros Hin. exists id. split; [done | apply String.eqb_refl].
Qed.

Lemma In_without id x (f : list string) :
  In x (List.filter (fun y => negb (String.eqb y id)) f)
  <-> In x f /\ x <> id.
Proof.
  rewrite filter_In, negb_true_iff, String.eqb_neq. done.
Qed.

Lemma NoDup_filter_list {A} (P : A -> bool) (l : list A) :
  List.NoDup l -> List.NoDup (List.filter P l).
Proof.
  induction 1 as [|x l Hx Hl IH]; simpl; [constructor |].
  destruct (P x); [| done]. constructor; [| done].
  rewrite filter_In. tauto.
Qed.

Lemma toggleFavorite_NoDup id f :
  List.NoDup f -> List.NoDup (toggleFavorite id f).
Proof.
  intros Hf. unfold toggleFavorite.
  destruct (existsb (String.eqb id) f) eqn:E.
  - by apply NoDup_filter_list.
  - apply List.NoDup_rev in Hf. rewrite <- (rev_involutive (f ++ [id])).
    apply List.NoDup_rev. rewrite rev_app_distr. simpl.
    constructor; [| done]. rewrite <- in_rev. intros Hin.
    apply existsb_eqb_In in Hin. congruence.
Qed.

(** X21. Starring a template flips its membership in the favourites and
    nothing else: after [toggleFavorite id] the list holds [id] exactly
    when it did not before, every other entry is in it exactly when it
    was before, and a list without duplicates stays without duplicates,
    so the favourites built from the empty list by any sequence of clicks
    never hold an entry twice. *)
Theorem toggleFavorite_flips_membership :
  forall id f,
    (In id (toggleFavorite id f) <-> ~ In id f)
    /\ (forall x, x <> id -> (In x (toggleFavorite id f) <-> In x f))
    /\ (List.NoDup f -> List.NoDup (toggleFavorite id f))
    /\ forall clicks,
         List.NoDup (foldl (fun g x => toggleFavorite x g) [] clicks).
Proof.
  intros id f.
  assert ((In id (toggleFavorite id f) <-> ~ In id f)
          /\ (forall x, x <> id -> (In x (toggleFavorite id f) <-> In x f)))
    as [H1 H2].
  { unfold toggleFavorite. destruct (existsb (String.eqb id) f) eqn:E.
    - apply existsb_eqb_In in E. split.
      + rewrite In_without. tauto.
      + intros x Hx. rewrite In_without. tauto.
    - assert (~ In id f) as Hn
        by (intros Hin; apply existsb_eqb_In in Hin; congruence).
      split.
      + rewrite in_app_iff. simpl. tauto.
      + intros x Hx. rewrite in_app_iff. simpl. split; [| tauto].
        intros [? | [? | []]]; [done | congruence]. }
  split; [done |]. split; [done |].
  split; [apply toggleFavorite_NoDup |].
  intros clicks.
  assert (forall g, List.NoDup g ->
            List.NoDup (foldl (fun g x => toggleFavorite x g) g clicks))
    as Hall.
  { induction clicks as [|x clicks IH]; intros g Hg; simpl; [done |].
    apply IH. by apply toggleFavorite_NoDup. }
  apply Hall. constructor.
Qed.

(** X22. Two clicks on the star of a template that is not a favourite
    give back the very same list. On a template that is one, they move
    it to the end: all its occurrences go and one comes back last. *)
Theorem toggleFavorite_twice :
  forall id f,
    (~ In id f -> toggleFavorite id (toggleFavorite id f) = f)
    /\ (In id f ->
        toggleFavorite id (toggleFavorite id f)
        = List.filter (fun x => negb (String.eqb x id)) f ++ [id]).
Proof.
  intros id f. split.
  - intros Hn.
    assert (existsb (String.eqb id) f = false) as E.
    { destruct (existsb (String.eqb id) f) eqn:E; [| done].
      apply existsb_eqb_In in E. done. }
    unfold toggleFavorite at 2. rewrite E.
    unfold toggleFavorite.
    assert (existsb (String.eqb id) (f ++ [id]) = true) as ->.
    { apply existsb_eqb_In, in_app_iff. right. by left. }
    rewrite List.filter_app. simpl. rewrite String.eqb_refl. simpl.
    rewrite app_nil_r. apply forallb_filter_id.
    apply forallb_forall. intros x Hx. apply negb_true_iff, String.eqb_neq.
    congruence.
  - intros Hin. apply existsb_eqb_In in Hin.
    unfold toggleFavorite at 2. rewrite Hin.
    unfold toggleFavorite.
    assert (existsb (String.eqb id)
              (List.filter (fun x => negb (String.eqb x id)) f) = false)
      as ->; [| done].
    apply not_true_is_false. intros E.
    apply existsb_eqb_In in E. apply In_without in E. tauto.
Qed.

(** X23. The quality tag sent to the optimizer is one of "1/10" to
    "9/10" for every setting: the setting itself from 1 to 9, "1/10"
    for anything below, and "9/10" for anything above, the top of the
    slider, 10, included. *)
Theorem qualityToTag_range :
  forall n,
    (9 <= n -> qualityToTag n = "9/10")
    /\ (n <= 1 -> qualityToTag n = "1/10")
    /\ (1 <= n <= 9 -> qualityToTag n = (digits_Z n ++ "/10")%string)
    /\ In (qualityToTag n)
         ["1/10"; "2/10"; "3/10"; "4/10"; "5/10"; "6/10"; "7/10"; "8/10";
          "9/10"].
Proof.
  intros n. unfold qualityToTag.
  destruct (Z.leb_spec 9 n).
  { split; [done |]. split; [lia |]. split.
    - intros Hn. assert (n = 9) as -> by lia. reflexivity.
    - simpl. tauto. }
  destruct (Z.leb_spec 8 n).
  { assert (n = 8) as -> by lia.
    split; [lia |]. split; [lia |]. split; [reflexivity | simpl; tauto]. }
  destruct (Z.leb_spec 7 n).
  { assert (n = 7) as -> by lia.
    split; [lia |]. split; [lia |]. split; [reflexivity | simpl; tauto]. }
  destruct (Z.leb_spec 6 n).
  { assert (n = 6) as -> by lia.
    split; [lia |]. split; [lia |]. split; [reflexivity | simpl; tauto]. }
  assert (Z.max 1 (Z.min 10 n) = Z.max 1 n) as -> by lia.
  split; [lia |].
  split. { intros Hn. by replace (Z.max 1 n) with 1 by lia. }
  split. { intros Hn. by replace (Z.max 1 n) with n by lia. }
  assert (Z.max 1 n = 1 \/ Z.max 1 n = 2 \/ Z.max 1 n = 3
          \/ Z.max 1 n = 4 \/ Z.max 1 n = 5) as Hk by lia.
  destruct Hk as [-> | [-> | [-> | [-> | ->]]]]; simpl; tauto.
Qed.

(** X24. The pose selector loses nothing: every pose other than the
    word "NONE" comes back from the select box as it went in, the empty
    pose included, the value given to the select box is never empty,
    and every value of the select box other than the empty one is
    given back to it after a round through the state. *)
Theorem pose_select_round_trip :
  forall p,
    (p <> NONE -> pose_of_select (select_value p) = p)
    /\ select_value p <> ""
    /\ (p <> "" -> select_value (pose_of_select p) = p).
Proof.
  intros p. unfold pose_of_select, select_value.
  split; [| split].
  - intros Hp. destruct (String.eqb_spec p "") as [-> | Hne]; [done |].
    by destruct (String.eqb_spec p NONE).
  - destruct (String.eqb_spec p ""); [done | done].
  - intros Hp. destruct (String.eqb_spec p NONE) as [-> | Hne]; [done |].
    by destruct (String.eqb_spec p "").
Qed.

(** * Toasts: proofs *)

Lemma digits_inj n m : digits n = digits m -> n = m.
Proof.
  unfold digits. intros H. apply DecimalNat.Unsigned.to_uint_inj.
  assert (Some (Nat.to_uint n) = Some (Nat.to_uint m)) as [= ->]; [| done].
  rewrite <- !DecimalString.NilEmpty.usu. by rewrite H.
Qed.

Lemma NoDup_map_filter {A B} (f : A -> B) (P : A -> bool) (l : list A) :
  List.NoDup (map f l) -> List.NoDup (map f (List.filter P l)).
Proof.
  induction l as [|x l IH]; simpl; [done |].
  intros Hnd. apply List.NoDup_cons_iff in Hnd as [Hx Hl].
  destruct (P x); simpl; [| by apply IH].
  constructor; [| by apply IH].
  intros Hin. apply Hx. apply in_map_iff in Hin as (y & Hy & Hin).
  apply in_map_iff. exists y. split; [done |]. apply filter_In in Hin. tauto.
Qed.

Lemma addToast_fresh toast st :
  ids_in_range st ->
  ~ In (addToast toast st).1 (map toast_id (toasts st)).
Proof.
  intros Hr Hin. apply in_map_iff in Hin as (t & Hid & Hin).
  destruct (Hr t Hin) as (k & Hk & Hidk). simpl in Hid.
  rewrite Hidk in Hid. injection Hid as Hid.
  apply digits_inj in Hid. lia.
Qed.

Lemma addToast_ok toast st : toasts_ok st -> toasts_ok (addToast toast st).2.
Proof.
  intros [Hnd Hr]. split.
  - simpl. rewrite map_app. simpl.
    apply List.NoDup_rev in Hnd.
    rewrite <- (rev_involutive (map toast_id (toasts st) ++ _)).
    apply List.NoDup_rev. rewrite rev_app_distr. simpl.
    constructor; [| done]. rewrite <- in_rev.
    apply (addToast_fresh toast st Hr).
  - intros t Hin. simpl in Hin. apply in_app_iff in Hin as [Hin | [<- | []]].
    + destruct (Hr t Hin) as (k & Hk & Hid). exists k. simpl.
      split; [lia | done].
    + exists (S (toastCount st)). simpl. split; [lia | done].
Qed.

Lemma removeToast_ok id st : toasts_ok st -> toasts_ok (removeToast id st).
Proof.
  intros [Hnd Hr]. split.
  - simpl. by apply NoDup_map_filter.
  - intros t Hin. simpl in Hin. apply filter_In in Hin as [Hin _].
    by apply Hr.
Qed.

Lemma toast_run_ok ops : forall st, toasts_ok st -> toasts_ok (toast_run ops st).
Proof.
  induction ops as [|op ops IH]; intros st Hst; simpl; [done |].
  apply IH. destruct op; simpl; [by apply addToast_ok | by apply removeToast_ok].
Qed.

Lemma toasts_ok_empty n : toasts_ok {| toastCount := n; toasts := [] |}.
Proof. split; [constructor | intros t []]. Qed.

(** X25. Toast ids never collide: whatever the counter was when the
    hook started with an empty list, after any sequence of [addToast]
    and [removeToast] the ids on display are pairwise different, and the
    id the next [addToast] hands out is none of them. *)
Theorem toast_ids_are_unique :
  forall ops n toast,
    List.NoDup
      (map toast_id
         (toasts (toast_run ops {| toastCount := n; toasts := [] |})))
    /\ ~ In (addToast toast
               (toast_run ops {| toastCount := n; toasts := [] |})).1
           (map toast_id
              (toasts (toast_run ops {| toastCount := n; toasts := [] |}))).
Proof.
  intros ops n toast.
  destruct (toast_run_ok ops _ (toasts_ok_empty n)) as [Hnd Hr].
  split; [done | by apply addToast_fresh].
Qed.

(** X26. Dismissing the toast just added undoes the addition: from any
    state reached by adding and removing, [addToast] followed by
    [removeToast] of the id it returned leaves the list as it was, with
    only the counter moved on. *)
Theorem add_then_remove_toast :
  forall ops n toast,
    toasts (removeToast
              (addToast toast
                 (toast_run ops {| toastCount := n; toasts := [] |})).1
              (addToast toast
                 (toast_run ops {| toastCount := n; toasts := [] |})).2)
    = toasts (toast_run ops {| toastCount := n; toasts := [] |})
    /\ toastCount
         (removeToast
            (addToast toast
               (toast_run ops {| toastCount := n; toasts := [] |})).1
            (addToast toast
               (toast_run ops {| toastCount := n; toasts := [] |})).2)
       = S (toastCount (toast_run ops {| toastCount := n; toasts := [] |})).
Proof.
  intros ops n toast.
  set (st := toast_run ops {| toastCount := n; toasts := [] |}).
  destruct (toast_run_ok ops _ (toasts_ok_empty n)) as [Hnd Hr].
  fold st in Hnd, Hr. split; [| done].
  pose proof (addToast_fresh toast st Hr) as Hfresh.
  cbn [removeToast addToast fst snd toasts].
  rewrite List.filter_app. cbn [List.filter toast_id].
  rewrite String.eqb_refl. simpl. rewrite app_nil_r.
  apply forallb_filter_id, forallb_forall. intros t Hin.
  apply negb_true_iff, String.eqb_neq. intros Heq. apply Hfresh.
  apply in_map_iff. exists t. done.
Qed.

(** * The studio page and the route: proofs *)

Lemma assoc_wire k props :
  assoc k (map (fun p => match p with (k', x) => (k', wire x) end) props)
  = option_map wire (assoc k props).
Proof.
  induction props as [|[k' x] props IH]; simpl; [done |].
  by destruct (String.eqb k k').
Qed.

Lemma assoc_app k ps qs :
  assoc k (ps ++ qs)
  = match assoc k ps with Some v => Some v | None => assoc k qs end.
Proof.
  induction ps as [|[k' x] ps IH]; simpl; [done |].
  by destruct (String.eqb k k').
Qed.

Lemma assoc_override_fresh k base extra :
  has_key k base = false ->
  assoc k (override base extra) = assoc k extra.
Proof.
  intros Hk. unfold override. rewrite assoc_app.
  assert (assoc k (map (fun p => (p.1, default p.2 (assoc p.1 extra))) base)
          = None) as ->.
  { induction base as [|[k' x] base IH]; simpl in *; [done |].
    apply orb_false_iff in Hk as [Hk Hb]. rewrite Hk. by apply IH. }
  induction extra as [|[k' x] extra IH]; simpl; [done |].
  destruct (String.eqb_spec k k') as [<- | Hne].
  - rewrite Hk. simpl. by rewrite String.eqb_refl.
  - destruct (negb (has_key k' base)); simpl; [| done].
    by destruct (String.eqb_spec k k').
Qed.

Lemma digits_not_choices i : digits i <> "choices".
Proof.
  unfold digits. intros H.
  pose proof (DecimalString.NilEmpty.usu (Nat.to_uint i)) as Hu.
  rewrite H in Hu. discriminate.
Qed.

Lemma eqb_choices_digits i : String.eqb "choices" (digits i) = false.
Proof.
  apply String.eqb_neq. intros E. symmetry in E.
  by apply digits_not_choices in E.
Qed.

Lemma choices_of_spread d : assoc "choices" (spread d) = get_prop d "choices".
Proof.
  destruct d as [| | | s | items | props]; try reflexivity.
  - cbn [spread get_prop]. generalize 0%nat.
    induction s as [|a s IH]; intros i; cbn [char_props assoc]; [done |].
    rewrite eqb_choices_digits. apply IH.
  - cbn [spread get_prop]. generalize 0%nat.
    induction items as [|x items IH]; intros i; cbn [index_props assoc];
      [done |].
    rewrite eqb_choices_digits. apply IH.
Qed.

Lemma choices_of_wire d :
  opt_chain (Some (wire d)) "choices" = option_map wire (get_prop d "choices").
Proof.
  destruct d as [| |[| |]| | |props]; simpl; try done. apply assoc_wire.
Qed.

(** X27. What the studio page shows for each answer of the route. After
    a success it is what the page would read from the upstream body
    alone, the fields the route adds being no part of it. After every
    failure (invalid request, no healthy model, fatal provider error,
    all providers failed, server error) it is the text "No output":
    none of the error details the route sends reaches the display. *)
Theorem page_shows_content_or_no_output :
  forall message timestamp r,
    page_text (response_json message timestamp r)
    = match r with
      | Success _ _ _ d => page_text (wire d)
      | _ => JStr "No output"
      end.
Proof.
  intros message timestamp r. destruct r as [| |m rt a d|m st a d|le mh|];
    try reflexivity.
  unfold page_text, response_json, response_body.
  rewrite !choices_of_wire.
  match goal with
  | |- context [get_prop (JObj (override ?b ?e)) "choices"] =>
      change (get_prop (JObj (override b e)) "choices")
        with (assoc "choices" (override b e))
  end.
  rewrite assoc_override_fresh by reflexivity.
  by rewrite choices_of_spread.
Qed.

Lemma runSchedule_answer transport rq l : forall s,
  match (finish (runSchedule transport rq l s)).1 with
  | BadRequest | NoHealthyModels | ServerError => False
  | _ => True
  end.
Proof.
  induction l as [|[c a] l IH]; intros [le w]; cbn [runSchedule].
  - done.
  - pose proof (attemptOnce_reports transport rq c a le w) as Ha.
    destruct (attemptOnce transport rq c a (le, w)) as [[r w1] | s'].
    + simpl. by destruct r.
    + apply IH.
Qed.

(** X28. The request of the studio page always gets through the
    validation of the route: it is never answered with the validation
    error or the server error, and every upstream call it causes carries
    the page's own settings, 1200 tokens, temperature 0.7 and top_p 1,
    with the default timeout of 30000 ms. *)
Theorem page_request_is_served :
  forall env transport now h0,
    (POST env transport now (Some page_request) h0).1 <> BadRequest
    /\ (POST env transport now (Some page_request) h0).1 <> ServerError
    /\ forall m p tm,
         In (Call m p tm)
           (log (POST env transport now (Some page_request) h0).2) ->
         max_tokens p = num 1200
         /\ temperature p = Some (Fin (7 # 10))
         /\ top_p p = Some (num 1)
         /\ tm = JNum (num 30000)
         /\ exists c, In c (getHealthyModels env h0 now) /\ m = model c.
Proof.
  intros env transport now h0.
  assert ((POST env transport now (Some page_request) h0).1 <> BadRequest
          /\ (POST env transport now (Some page_request) h0).1 <> ServerError)
    as [H1 H2].
  { destruct (availableModels env h0 now (provider_of page_request))
      as [|c cs] eqn:E.
    - unfold POST. change (messages_of page_request)
        with (JArr [JObj [("role", JStr "user");
                          ("content",
                           JStr "Write a 3-line product blurb about steel bowls.")]]).
      rewrite E. simpl. done.
    - erewrite POST_run; [| reflexivity | done | by rewrite E].
      pose proof (runSchedule_answer transport
                    (request_of page_request
                       [JObj [("role", JStr "user");
                              ("content",
                               JStr "Write a 3-line product blurb about steel bowls.")]])
                    (schedule
                       (availableModels env h0 now (provider_of page_request)))
                    (None, {| modelHealth := h0; log := [] |})) as Ha.
      split; intros Hr; by rewrite Hr in Ha. }
  split; [done |]. split; [done |].
  intros m p tm Hin.
  destruct (POST_call_candidate _ _ _ _ _ _ _ _ Hin)
    as (msgs & c & Hm & Hc & -> & -> & ->).
  repeat split; try reflexivity. by exists c.
Qed.

(** * The client theorems at sample inputs *)

Lemma safeJsonExtract_strips_the_wrapping_witness :
  safeJsonExtract "```json {a: {b: 1}} ``` done" = "{a: {b: 1}}".
Proof.
  apply (safeJsonExtract_strips_the_wrapping "```json " "a: {b: 1}"
           " ``` done"); reflexivity.
Defined.

Lemma toggleFavorite_flips_membership_witness :
  (In "portrait" (toggleFavorite "portrait" ["logo"; "poster"])
   <-> ~ In "portrait" ["logo"; "poster"])
  /\ (In "logo" (toggleFavorite "portrait" ["logo"; "poster"])
      <-> In "logo" ["logo"; "poster"])
  /\ List.NoDup (toggleFavorite "portrait" ["logo"; "poster"]).
Proof.
  destruct (toggleFavorite_flips_membership "portrait" ["logo"; "poster"])
    as (H1 & H2 & H3 & _).
  split; [exact H1 |]. split; [apply H2; discriminate |].
  apply H3. repeat constructor; simpl; intuition discriminate.
Defined.

Lemma toggleFavorite_twice_witness :
  toggleFavorite "portrait" (toggleFavorite "portrait" ["logo"; "poster"])
  = ["logo"; "poster"]
  /\ toggleFavorite "logo" (toggleFavorite "logo" ["logo"; "poster"])
     = ["poster"; "logo"].
Proof.
  destruct (toggleFavorite_twice "portrait" ["logo"; "poster"]) as [H1 _].
  destruct (toggleFavorite_twice "logo" ["logo"; "poster"]) as [_ H2].
  split.
  - apply H1. simpl. intuition discriminate.
  - apply H2. simpl. by left.
Defined.

Lemma qualityToTag_range_witness :
  qualityToTag 10 = "9/10"
  /\ qualityToTag 0 = "1/10"
  /\ qualityToTag 5 = "5/10".
Proof.
  destruct (qualityToTag_range 10) as (H1 & _).
  destruct (qualityToTag_range 0) as (_ & H2 & _).
  destruct (qualityToTag_range 5) as (_ & _ & H3 & _).
  split; [apply H1; lia |]. split; [apply H2; lia |]. apply H3. lia.
Defined.

Lemma pose_select_round_trip_witness :
  pose_of_select (select_value "") = ""
  /\ pose_of_select (select_value "SIDE_HUG") = "SIDE_HUG"
  /\ select_value (pose_of_select "HUG") = "HUG".
Proof.
  destruct (pose_select_round_trip "") as (H1 & _).
  destruct (pose_select_round_trip "SIDE_HUG") as (H2 & _).
  destruct (pose_select_round_trip "HUG") as (_ & _ & H3).
  split; [apply H1; discriminate |]. split; [apply H2; discriminate |].
  apply H3. discriminate.
Defined.

Lemma page_request_is_served_witness :
  max_tokens (basePayload (request_of page_request [user_message]))
  = num 1200
  /\ (POST env0 (always completion) clock0 (Some page_request) ∅).1
     <> BadRequest.
Proof.
  destruct (page_request_is_served env0 (always completion) clock0 ∅)
    as (H1 & _ & H3).
  split; [| exact H1].
  destruct (H3 (model (primary env0))
              (basePayload
                 (request_of page_request
                    [JObj [("role", JStr "user");
                           ("content",
                            JStr "Write a 3-line product blurb about steel bowls.")]]))
              (JNum (num 30000))) as (Hm & _).
  - vm_compute. left. reflexivity.
  - exact Hm.
Defined.

(** * The health map as a trace of the calls *)

Lemma runSchedule_health_trace transport rq l : forall le w,
  exists j,
    calls (log (world_of (runSchedule transport rq l (le, w))))
    = calls (log w) ++ map (fun p => call_of rq p.1) (take j l)
    /\ modelHealth (world_of (runSchedule transport rq l (le, w)))
       = health_trace transport (length (calls (log w)))
           (map (fun p => model p.1) (take j l)) (modelHealth w).
Proof.
  induction l as [|[c a] l IH]; intros le w; cbn [runSchedule].
  - exists O. simpl. by rewrite app_nil_r.
  - pose proof (attemptOnce_calls transport rq c a le w) as Hc.
    pose proof (attemptOnce_health transport rq c a le w) as Hh.
    destruct (attemptOnce transport rq c a (le, w)) as [[r w1] | [le' w1]];
      simpl in Hc, Hh.
    + exists 1%nat. simpl. by rewrite Hc, Hh.
    + destruct (IH le' w1) as (j & Hj & Hm). exists (S j).
      rewrite Hj, Hm, Hc, Hh, length_app. simpl.
      rewrite Nat.add_1_r. by rewrite <- app_assoc.
Qed.

(** X29. The health map after a request is the map before it, updated
    once for each upstream call of the request, in the order of the
    calls, by what that call did: a success of [res.ok], a failure
    otherwise. Nothing else in the handler writes to it, and no call is
    left out, whatever its verdict. *)
Theorem health_follows_the_calls :
  forall env transport now body h0,
    modelHealth (POST env transport now body h0).2
    = health_trace transport 0
        (map call_model (calls (log (POST env transport now body h0).2))) h0.
Proof.
  intros env transport now body h0.
  destruct (POST_cases env transport now body h0)
    as [Hw | (b & msgs & -> & Hm & Hne & Hcs)].
  { by rewrite Hw. }
  rewrite (POST_run _ _ _ _ _ _ Hm Hne Hcs), world_of_finish.
  destruct (runSchedule_health_trace transport (request_of b msgs)
              (schedule (availableModels env h0 now (provider_of b)))
              None {| modelHealth := h0; log := [] |}) as (j & Hj & Hh).
  rewrite Hh, Hj. simpl. by rewrite map_map.
Qed.
